(** * Customer schemas: validation, normalisation, hashing, projection

    A shallow embedding of
    [application/blueprints/customer/customerSchemas.py]:
    the [CustomerSchema] load pipeline (the [process_input] pre-load hook,
    field validation, instance construction, the [hash_password] post-load
    hook), the two dump projections ([customer_schema] and
    [customer_simple_schema]) and [LoginSchema].

    Python strings are sequences of Unicode code points, dictionaries are
    finite maps keyed by strings, and the request body handed to [load] lives
    in a store of objects addressed by reference, because [process_input]
    writes into it. *)

From Stdlib Require Import ZArith NArith.
From stdpp Require Import strings functions fin_maps gmap list.

Set Warnings "-register-all".
Set Default Proof Using "Type*".

(** ** Python values *)

(** A [str] is a sequence of code points. *)
Abbreviation pystr := (list N).

(** A string literal of the source, as code points. *)
Definition py (s : string) : pystr :=
  Ascii.N_of_ascii <$> String.list_ascii_of_string s.

(** The values a decoded JSON body or a record attribute can hold. A float is
    carried as its IEEE-754 binary64 bit pattern, a datetime as its instant in
    microseconds. *)
Inductive pyval :=
  | PNone
  | PBool (b : bool)
  | PInt (z : Z)
  | PFloat (bits : Z)
  | PStr (s : pystr)
  | PDateTime (micros : Z)
  | PList (items : list pyval)
  | PDict (d : gmap pystr pyval).

Abbreviation dict := (gmap pystr pyval).

(** [isinstance(value, str)] *)
Definition is_str (v : pyval) : bool :=
  match v with PStr _ => true | _ => false end.

(** Truth value of an object, as tested by [if not raw_pw] and
    [data['password']]. *)
Definition truthy (v : pyval) : bool :=
  match v with
  | PNone => false
  | PBool b => b
  | PInt z => negb (z =? 0)%Z
  | PFloat bits => negb (Z.land bits (2 ^ 63 - 1) =? 0)%Z
  | PStr s => match s with [] => false | _ => true end
  | PDateTime _ => true
  | PList items => match items with [] => false | _ => true end
  | PDict d => match map_to_list d with [] => false | _ => true end
  end.

(** ** Strings *)

Definition in_range (lo hi c : N) : bool := ((lo <=? c) && (c <=? hi))%N.

Definition one_of (cs : pystr) (c : N) : bool := existsb (N.eqb c) cs.

(** The characters [str.strip()] removes when called without argument:
    the ASCII table [\t \n \v \f \r FS GS RS US space] and the Unicode
    white space beyond it. *)
Definition is_whitespace (c : N) : bool :=
  in_range 9 13 c || in_range 28 32 c
  || one_of [133; 160; 5760; 8232; 8233; 8239; 8287; 12288]%N c
  || in_range 8192 8202 c.

Fixpoint lstrip (s : pystr) : pystr :=
  match s with
  | c :: rest => if is_whitespace c then lstrip rest else s
  | [] => []
  end.

Definition rstrip (s : pystr) : pystr := reverse (lstrip (reverse s)).

(** [value.strip()] *)
Definition strip (s : pystr) : pystr := rstrip (lstrip s).

(** [s.startswith(prefix)] *)
Fixpoint startswith (s prefix : pystr) {struct prefix} : bool :=
  match prefix, s with
  | [], _ => true
  | p :: prefix', c :: s' => (c =? p)%N && startswith s' prefix'
  | _ :: _, [] => false
  end.

(** [s.split(sep)] for a one-character separator: always at least one part. *)
Fixpoint split_on (sep : N) (s : pystr) : list pystr :=
  match s with
  | [] => [[]]
  | c :: rest =>
      if (c =? sep)%N then [] :: split_on sep rest
      else match split_on sep rest with
           | part :: parts => (c :: part) :: parts
           | [] => [[c]]
           end
  end.

(** [s.rsplit(sep, 1)] when [sep] occurs in [s]: the text before and after
    the last separator. *)
Fixpoint rsplit1 (sep : N) (s : pystr) : option (pystr * pystr) :=
  match s with
  | [] => None
  | c :: rest =>
      match rsplit1 sep rest with
      | Some (before, after) => Some (c :: before, after)
      | None => if (c =? sep)%N then Some ([], rest) else None
      end
  end.

(** [s.encode('utf-8')]: the strict codec refuses surrogate code points. *)
Definition encode_char (c : N) : option (list N) :=
  if (c <? 128)%N then Some [c]
  else if (c <? 2048)%N then
    Some [192 + N.shiftr c 6; 128 + N.land c 63]%N
  else if in_range 55296 57343 c then None
  else if (c <? 65536)%N then
    Some [224 + N.shiftr c 12; 128 + N.land (N.shiftr c 6) 63;
          128 + N.land c 63]%N
  else if (c <? 1114112)%N then
    Some [240 + N.shiftr c 18; 128 + N.land (N.shiftr c 12) 63;
          128 + N.land (N.shiftr c 6) 63; 128 + N.land c 63]%N
  else None.

Fixpoint encode_utf8 (s : pystr) : option (list N) :=
  match s with
  | [] => Some []
  | c :: rest =>
      match encode_char c, encode_utf8 rest with
      | Some bs, Some more => Some (bs ++ more)
      | _, _ => None
      end
  end.

Definition is_cont (b : N) : bool := in_range 128 191 b.
Definition cont (b : N) : N := N.land b 63.

(** [b.decode('utf-8')]: shortest forms only, no surrogates, nothing above
    U+10FFFF. *)
Fixpoint decode_utf8 (bs : list N) : option pystr :=
  match bs with
  | [] => Some []
  | b0 :: rest =>
      if (b0 <? 128)%N then cons b0 <$> decode_utf8 rest
      else if in_range 194 223 b0 then
        match rest with
        | b1 :: rest1 =>
            if is_cont b1
            then cons (N.shiftl (N.land b0 31) 6 + cont b1)%N
                   <$> decode_utf8 rest1
            else None
        | _ => None
        end
      else if in_range 224 239 b0 then
        match rest with
        | b1 :: b2 :: rest2 =>
            let c := (N.shiftl (N.land b0 15) 12 + N.shiftl (cont b1) 6
                      + cont b2)%N in
            if is_cont b1 && is_cont b2 && (2048 <=? c)%N
               && negb (in_range 55296 57343 c)
            then cons c <$> decode_utf8 rest2
            else None
        | _ => None
        end
      else if in_range 240 244 b0 then
        match rest with
        | b1 :: b2 :: b3 :: rest3 =>
            let c := (N.shiftl (N.land b0 7) 18 + N.shiftl (cont b1) 12
                      + N.shiftl (cont b2) 6 + cont b3)%N in
            if is_cont b1 && is_cont b2 && is_cont b3
               && in_range 65536 1114111 c
            then cons c <$> decode_utf8 rest3
            else None
        | _ => None
        end
      else None
  end.

(** ** Exceptions *)

(** One violation message of a marshmallow field or validator. *)
Inductive violation :=
  | Required                      (* "Missing data for required field." *)
  | Null                          (* "Field may not be null." *)
  | InvalidString                 (* "Not a valid string." *)
  | InvalidEmail                  (* "Not a valid email address." *)
  | TooShort (min : nat)          (* "Shorter than minimum length {min}." *)
  | TooLong (max : nat)           (* "Longer than maximum length {max}." *)
  | LengthBetween (min max : nat) (* "Length must be between {min} and {max}." *)
  | UnknownField                  (* "Unknown field." *)
  | InvalidInputType.             (* "Invalid input type." *)

#[global] Instance violation_eq_dec : EqDecision violation.
Proof. solve_decision. Defined.

(** The messages of a [ValidationError]: field name to violations. *)
Abbreviation messages := (gmap pystr (list violation)).

Inductive exn :=
  | ValidationError (errors : messages)
  | UnicodeEncodeError
  | UnicodeDecodeError
  | AttributeError
  | TypeError
  | ValueError.

Inductive result (A : Type) :=
  | Ok (a : A)
  | Raise (e : exn).
Arguments Ok {A} a.
Arguments Raise {A} e.

#[global] Instance result_ret : MRet result := λ A a, Ok a.
#[global] Instance result_bind : MBind result := λ A B k r,
  match r with
  | Ok a => k a
  | Raise e => Raise e
  end.

(** Runs [f] over a sequence, stopping at the first exception. *)
Fixpoint traverse {A B} (f : A → result B) (l : list A) : result (list B) :=
  match l with
  | [] => Ok []
  | a :: rest => b ← f a; bs ← traverse f rest; Ok (b :: bs)
  end.

(** ** What the module imports

    The module relies on the Python runtime, marshmallow, bcrypt and the
    application's own [ServiceTicketSchema]. The parts of those that are
    tables or algorithms of their own (the Unicode database, the IDNA codec,
    the Blowfish key schedule, the builtins on arbitrary objects, the ticket
    schema) are the members of this interface; everything else is written
    out below. *)
Class Externals := {
  (** [\w] beyond ASCII: the alphanumeric code points of the Unicode
      database. *)
  unicode_alnum : N → bool;
  (** [\d] beyond ASCII: the decimal digits of the Unicode database. *)
  unicode_decimal : N → bool;
  (** [domain.encode('idna').decode('ascii')]; [None] on [UnicodeError]. *)
  idna_encode : pystr → option pystr;
  (** bcrypt's expensive key schedule: password bytes and the encoded salt
      to the 23 digest bytes. *)
  bcrypt_core : list N → list N → list N;
  (** The passwords [bcrypt.hashpw] refuses with a [ValueError]. Which they
      are hangs on the installed version, which the module does not pin:
      from 5.0 on those of more than 72 bytes, while 4.x refuses none and
      hashes the first 72 bytes only. *)
  bcrypt_refuses : list N → bool;
  (** [str(obj)] on an object that is not a [str]. *)
  str_builtin : pyval → pystr;
  (** [int(obj)] on an object that is neither an [int] nor a [bool]. *)
  int_builtin : pyval → result Z;
  (** [datetime.isoformat()] *)
  isoformat : Z → pystr;
  (** The related entity and the fields [ServiceTicketSchema] dumps, each
      with its serializer. *)
  ServiceTicket : Type;
  ticket_dump_fields : list (pystr * (ServiceTicket → result pyval))
}.

(** ** marshmallow validators *)

Module validate.
Inductive validator :=
  | Length (min max : option nat)   (* validate.Length(min=.., max=..) *)
  | Email.                          (* validate.Email() *)
End validate.

Definition ascii_letter (c : N) : bool := in_range 65 90 c || in_range 97 122 c.
Definition ascii_digit (c : N) : bool := in_range 48 57 c.

(** A class [[A-Z]] compiled with [re.IGNORECASE | re.UNICODE]: the 52 ASCII
    letters and the four code points whose case mapping is an ASCII letter
    (U+0130, U+0131, U+017F, U+212A). *)
Definition letter_ic (c : N) : bool :=
  ascii_letter c || one_of [304; 305; 383; 8490]%N c.

Section Validators.
Context `{Externals}.

(** [\w] *)
Definition word_char (c : N) : bool :=
  if (c <? 128)%N then ascii_letter c || ascii_digit c || (c =? 95)%N
  else unicode_alnum c.

(** [\d] *)
Definition digit_char (c : N) : bool :=
  if (c <? 128)%N then ascii_digit c else unicode_decimal c.

(** [[-!#$%&'*+/=?^`{}|~\w]] *)
Definition atext (c : N) : bool :=
  one_of (py "-!#$%&'*+/=?^`{}|~") c || word_char c.

(** First alternative of [USER_REGEX]: dot-separated runs of [atext]. *)
Definition dot_atom (user : pystr) : bool :=
  forallb (λ run, match run with [] => false | _ => forallb atext run end)
          (split_on 46 user).

(** [[\001-\010\013\014\016-\037!#-\[\]-\177]] *)
Definition qtext (c : N) : bool :=
  in_range 1 8 c || one_of [11; 12; 33]%N c || in_range 14 31 c
  || in_range 35 91 c || in_range 93 127 c || letter_ic c.

(** [[\001-\011\013\014\016-\177]], the character after a backslash. *)
Definition quoted_pair (c : N) : bool :=
  in_range 1 9 c || one_of [11; 12]%N c || in_range 14 127 c || letter_ic c.

(** What follows the opening quote of a quoted string, up to and including
    the closing quote, which ends the text. *)
Fixpoint quoted_tail (s : pystr) : bool :=
  match s with
  | [] => false
  | c :: rest =>
      if (c =? 34)%N then match rest with [] => true | _ => false end
      else if (c =? 92)%N then
        match rest with
        | e :: rest' => quoted_pair e && quoted_tail rest'
        | [] => false
        end
      else qtext c && quoted_tail rest
  end.

(** Second alternative of [USER_REGEX]. *)
Definition quoted_string (user : pystr) : bool :=
  match user with
  | c :: rest => (c =? 34)%N && quoted_tail rest
  | [] => false
  end.

Definition USER_REGEX (user : pystr) : bool :=
  dot_atom user || quoted_string user.

Definition alnum_ic (c : N) : bool := letter_ic c || ascii_digit c.
Definition ldh_ic (c : N) : bool := alnum_ic c || (c =? 45)%N.

(** [[A-Z0-9](?:[A-Z0-9-]{0,61}[A-Z0-9])?] *)
Definition domain_label (l : pystr) : bool :=
  match l with
  | [] => false
  | c :: rest =>
      alnum_ic c
      && match reverse rest with
         | [] => true
         | z :: middle =>
             alnum_ic z && forallb ldh_ic middle && (length middle <=? 61)
         end
  end.

(** [(?:[A-Z]{2,6}|[A-Z0-9-]{2,})] up to the end of the text. *)
Definition top_level (l : pystr) : bool :=
  (forallb letter_ic l && (2 <=? length l) && (length l <=? 6))
  || (forallb ldh_ic l && (2 <=? length l)).

Fixpoint labels_then_top (parts : list pystr) : bool :=
  match parts with
  | [] => false
  | [last] => top_level last
  | l :: rest => domain_label l && labels_then_top rest
  end.

(** First alternative of [DOMAIN_REGEX]: one label or more, each followed
    by a dot, then the top-level name. *)
Definition hostname (domain : pystr) : bool :=
  let parts := split_on 46 domain in
  (2 <=? length parts) && labels_then_top parts.

(** [(25[0-5]|2[0-4]\d|[0-1]?\d?\d)] *)
Definition octet (s : pystr) : bool :=
  match s with
  | [a] => digit_char a
  | [a; b] => digit_char a && digit_char b
  | [a; b; c] =>
      ((a =? 50) && (b =? 53) && in_range 48 53 c)%N
      || ((a =? 50)%N && in_range 48 52 b && digit_char c)
      || (in_range 48 49 a && digit_char b && digit_char c)
  | _ => false
  end.

(** Second alternative of [DOMAIN_REGEX]: a bracketed IPv4 literal. *)
Definition ipv4_literal (domain : pystr) : bool :=
  match domain with
  | c :: rest =>
      (c =? 91)%N
      && match reverse rest with
         | z :: inner =>
             (z =? 93)%N
             && match split_on 46 (reverse inner) with
                | [o1; o2; o3; o4] => octet o1 && octet o2 && octet o3 && octet o4
                | _ => false
                end
         | [] => false
         end
  | [] => false
  end.

Definition DOMAIN_REGEX (domain : pystr) : bool :=
  hostname domain || ipv4_literal domain.

Definition DOMAIN_WHITELIST : list pystr := [py "localhost"].

(** [validate.Email.__call__]: [true] when the value is accepted. *)
Definition email_ok (value : pystr) : bool :=
  match value with
  | [] => false
  | _ =>
      match rsplit1 64 value with
      | None => false
      | Some (user_part, domain_part) =>
          USER_REGEX user_part
          && (bool_decide (domain_part ∈ DOMAIN_WHITELIST)
              || DOMAIN_REGEX domain_part
              || match idna_encode domain_part with
                 | Some ascii_domain => DOMAIN_REGEX ascii_domain
                 | None => false
                 end)
      end
  end.

(** [validate.Length.__call__] (no [equal]): the violation, if any. *)
Definition length_check (min max : option nat) (value : pystr)
  : list violation :=
  let too_short := match min with Some lo => length value <? lo | None => false end in
  let too_long := match max with Some hi => hi <? length value | None => false end in
  match min, max with
  | Some lo, Some hi =>
      if too_short || too_long then [LengthBetween lo hi] else []
  | Some lo, None => if too_short then [TooShort lo] else []
  | None, Some hi => if too_long then [TooLong hi] else []
  | None, None => []
  end.

Definition run_validator (v : validate.validator) (value : pystr)
  : list violation :=
  match v with
  | validate.Length min max => length_check min max value
  | validate.Email => if email_ok value then [] else [InvalidEmail]
  end.
End Validators.

(** ** marshmallow fields and schemas *)

Module fields.
Inductive field_type :=
  | Str
  | Email
  | Int
  | DateTime
  | Nested (schema : pystr) (exclude : list pystr).
End fields.

(** A declared field with the keyword arguments the module uses. *)
Record field := Field {
  name : pystr;
  ftype : fields.field_type;
  required : bool;
  load_only : bool;
  dump_only : bool;
  validate : list validate.validator
}.

(** A schema instance: the fields its class declares and the [exclude]
    argument of the instance. *)
Record Schema := {
  declared : list field;
  exclude : list pystr
}.

Definition load_fields (s : Schema) : list field :=
  filter (λ f, dump_only f = false ∧ name f ∉ exclude s) (declared s).

Definition dump_fields (s : Schema) : list field :=
  filter (λ f, load_only f = false ∧ name f ∉ exclude s) (declared s).

(** What [Field.deserialize] makes of one entry of the input. *)
Inductive outcome :=
  | Missing
  | Value (v : pyval)
  | Invalid (errors : list violation).

Section Load.
Context `{Externals}.

(** [fields.Email] puts its own validator before the declared ones. *)
Definition validators (f : field) : list validate.validator :=
  match ftype f with
  | fields.Email => validate.Email :: validate f
  | _ => validate f
  end.

(** The [invalid] entry of a string field's error messages, which
    [fields.Email] overrides. *)
Definition invalid (t : fields.field_type) : violation :=
  match t with
  | fields.Email => InvalidEmail
  | _ => InvalidString
  end.

(** [Field.deserialize]: the required and null checks, the type check of a
    string field, then every validator, collecting their messages. The
    [Int], [DateTime] and [Nested] fields of this module are all
    [dump_only] and are never deserialized. *)
Definition deserialize (f : field) (raw : option pyval) : outcome :=
  match raw with
  | None => if required f then Invalid [Required] else Missing
  | Some PNone => Invalid [Null]
  | Some value =>
      match ftype f with
      | fields.Str | fields.Email =>
          match value with
          | PStr s =>
              match mjoin ((λ v, run_validator v s) <$> validators f) with
              | [] => Value value
              | errors => Invalid errors
              end
          | _ => Invalid [invalid (ftype f)]
          end
      | _ => Missing
      end
  end.

Definition store_field (data : dict) (acc : dict * messages) (f : field)
  : dict * messages :=
  match deserialize f (data !! name f) with
  | Missing => acc
  | Value v => (<[name f := v]> acc.1, acc.2)
  | Invalid errors => (acc.1, <[name f := errors]> acc.2)
  end.

(** [unknown = RAISE]: every key that is not a load field is an error. *)
Definition unknown_errors (s : Schema) (data : dict) : messages :=
  (λ _, [UnknownField])
    <$> filter (λ kv, kv.1 ∉ name <$> load_fields s) data.

(** [Schema._deserialize] for a single object. *)
Definition _deserialize (s : Schema) (data : pyval) : dict * messages :=
  match data with
  | PDict d =>
      let '(ret, errors) := foldl (store_field d) (∅, ∅) (load_fields s) in
      (ret, errors ∪ unknown_errors s d)
  | _ => (∅, {[ py "_schema" := [InvalidInputType] ]})
  end.

(** The part of [Schema._do_load] between the hooks. *)
Definition validated (s : Schema) (data : pyval) : result dict :=
  let '(ret, errors) := _deserialize s data in
  if decide (errors = ∅) then Ok ret else Raise (ValidationError errors).
End Load.

(** ** bcrypt *)

Definition Base64Code : pystr :=
  py "./ABCDEFGHIJKLMNOPQRSTUVWXYZabcdefghijklmnopqrstuvwxyz0123456789".

Definition base64_char (i : N) : N :=
  nth (N.to_nat (N.land i 63)) Base64Code 46%N.

(** bcrypt's radix-64 encoding, without padding. *)
Fixpoint encode_base64 (data : list N) : list N :=
  match data with
  | [] => []
  | [c1] =>
      [base64_char (N.shiftr c1 2);
       base64_char (N.shiftl (N.land c1 3) 4)]
  | [c1; c2] =>
      [base64_char (N.shiftr c1 2);
       base64_char (N.lor (N.shiftl (N.land c1 3) 4) (N.land (N.shiftr c2 4) 15));
       base64_char (N.shiftl (N.land c2 15) 2)]
  | c1 :: c2 :: c3 :: rest =>
      [base64_char (N.shiftr c1 2);
       base64_char (N.lor (N.shiftl (N.land c1 3) 4) (N.land (N.shiftr c2 4) 15));
       base64_char (N.lor (N.shiftl (N.land c2 15) 2) (N.land (N.shiftr c3 6) 3));
       base64_char c3]
      ++ encode_base64 rest
  end.

(** [bcrypt.gensalt()] with its default cost and prefix; [random] is what
    [os.urandom(16)] returns in this call. *)
Definition gensalt (random : list N) : list N :=
  py "$2b$12$" ++ encode_base64 random.

Section Hashing.
Context `{Externals}.

(** What [bcrypt.hashpw(password, salt)] returns for a salt of [gensalt]:
    the salt, followed by the encoded digest. *)
Definition hash_bytes (password salt : list N) : list N :=
  salt ++ encode_base64 (bcrypt_core password salt).

(** [bcrypt.hashpw(password, salt)] *)
Definition hashpw (password salt : list N) : result (list N) :=
  if bcrypt_refuses password then Raise ValueError
  else Ok (hash_bytes password salt).

(** The helper [_hash] of [hash_password]. *)
Definition _hash (random : list N) (raw_pw : pyval) : result pyval :=
  if negb (truthy raw_pw) then Ok raw_pw
  else
    match raw_pw with
    | PStr s =>
        if startswith s (py "$2") then Ok raw_pw
        else
          match encode_utf8 s with
          | None => Raise UnicodeEncodeError
          | Some pw_bytes =>
              hashed ← hashpw pw_bytes (gensalt random);
              match decode_utf8 hashed with
              | Some text => Ok (PStr text)
              | None => Raise UnicodeDecodeError
              end
          end
    | _ => Raise AttributeError
    end.

(** Modelled from the spec: the [Customer] model of [application.models]
    is declared outside this module; its attributes are the ones of the
    spec's data model. An attribute without a value holds [PNone]. *)
Record Customer := {
  id : pyval;
  first_name : pyval;
  last_name : pyval;
  email : pyval;
  password : pyval;
  phone : pyval;
  address : pyval;
  created_at : pyval;
  service_tickets : list ServiceTicket
}.

Definition set_password (c : Customer) (p : pyval) : Customer :=
  {| id := id c; first_name := first_name c; last_name := last_name c;
     email := email c; password := p; phone := phone c;
     address := address c; created_at := created_at c;
     service_tickets := service_tickets c |}.

(** What a post-load hook receives: the validated mapping, or the
    instance built from it. *)
Inductive loaded :=
  | Mapping (d : dict)
  | Instance (c : Customer).

(** The [@post_load] hook [hash_password]. *)
Definition hash_password (random : list N) (data : loaded) : result loaded :=
  match data with
  | Instance c =>
      if truthy (password c)
      then p ← _hash random (password c); Ok (Instance (set_password c p))
      else Ok data
  | Mapping d =>
      match d !! py "password" with
      | Some raw =>
          if truthy raw
          then p ← _hash random raw; Ok (Mapping (<[py "password" := p]> d))
          else Ok data
      | None => Ok data
      end
  end.

(** The constructor of [Customer] called with the mapping as keyword
    arguments: they become attributes, the other columns stay unset. *)
Definition new_Customer (data : dict) : Customer :=
  let attr k := default PNone (data !! py k) in
  {| id := PNone; first_name := attr "first_name";
     last_name := attr "last_name"; email := attr "email";
     password := attr "password"; phone := attr "phone";
     address := attr "address"; created_at := PNone;
     service_tickets := [] |}.

(** The [@post_load] hook [make_instance] that [load_instance = True]
    enables. *)
Definition make_instance (data : loaded) : loaded :=
  match data with
  | Mapping d => Instance (new_Customer d)
  | Instance c => Instance c
  end.

End Hashing.

(** ** The store and the pre-load hook *)

(** Objects are held by reference; the store gives the object behind each
    reference. *)
Abbreviation loc := positive.
Abbreviation heap := (loc → pyval).

(** One iteration of the loop of [process_input]: [data[key] = value.strip()]
    under its guard. *)
Definition strip_item (key : pystr) (value : pyval) (data : dict) : dict :=
  match value with
  | PStr s =>
      if bool_decide (key ≠ py "password")
      then <[key := PStr (strip s)]> data
      else data
  | _ => data
  end.

(** The loop [for key, value in data.items()], writing into [data]. *)
Definition strip_items (data : dict) : dict := map_fold strip_item data data.

(** The [@pre_load] hook [process_input]: loops over the items of the
    mapping it was given, writes into that same mapping, and returns the
    same reference. Anything that is not a [dict] is returned untouched. *)
Definition process_input (data : loc) (h : heap) : loc * heap :=
  match h data with
  | PDict d => (data, <[data := PDict (strip_items d)]> h)
  | _ => (data, h)
  end.

Section Pipeline.
Context `{Externals}.

(** The post-load hooks in the order marshmallow runs them, by name. *)
Definition post_load (random : list N) (ret : dict) : result Customer :=
  data ← hash_password random (Mapping ret);
  match make_instance data with
  | Instance c => Ok c
  | Mapping _ => Raise TypeError
  end.

(** [CustomerSchema.load]: pre-load hook, validation, post-load hooks.
    Returns the outcome and the store as the call leaves it. *)
Definition load (s : Schema) (random : list N) (data : loc) (h : heap)
  : result Customer * heap :=
  let '(processed_data, h') := process_input data h in
  (ret ← validated s (h' processed_data); post_load random ret, h').

(** ** Dump *)

(** [getattr(obj, attr)] for the attributes that hold plain values. *)
Definition getattr (obj : Customer) (attr : pystr) : option pyval :=
  (list_to_map
     [(py "id", id obj); (py "first_name", first_name obj);
      (py "last_name", last_name obj); (py "email", email obj);
      (py "password", password obj); (py "phone", phone obj);
      (py "address", address obj); (py "created_at", created_at obj)]
   : dict) !! attr.

(** [Field._serialize] of the plain field types. *)
Definition serialize_value (t : fields.field_type) (value : pyval)
  : result pyval :=
  match value with
  | PNone => Ok PNone
  | _ =>
      match t with
      | fields.Str | fields.Email =>
          Ok (PStr match value with PStr s => s | _ => str_builtin value end)
      | fields.Int =>
          match value with
          | PInt z => Ok (PInt z)
          | PBool b => Ok (PInt (Z.b2z b))
          | _ => z ← int_builtin value; Ok (PInt z)
          end
      | fields.DateTime =>
          match value with
          | PDateTime t => Ok (PStr (isoformat t))
          | _ => Raise AttributeError
          end
      | fields.Nested _ _ => Raise TypeError
      end
  end.

(** One iteration of the loop of [Schema._serialize] over the fields of a
    ticket. *)
Definition dump_ticket_field (ticket : ServiceTicket) (acc : result dict)
    (kf : pystr * (ServiceTicket → result pyval)) : result dict :=
  ret ← acc; v ← kf.2 ticket; Ok (<[kf.1 := v]> ret).

(** [ServiceTicketSchema(exclude=...).dump(ticket)] *)
Definition dump_ticket (exclude : list pystr) (ticket : ServiceTicket)
  : result pyval :=
  d ← foldl (dump_ticket_field ticket) (Ok ∅)
            (filter (λ kf, kf.1 ∉ exclude) ticket_dump_fields);
  Ok (PDict d).

(** [Field.serialize]: [None] when the object lacks the attribute, and the
    field is then left out. *)
Definition serialize (f : field) (obj : Customer) : result (option pyval) :=
  match ftype f with
  | fields.Nested _ exclude =>
      if bool_decide (name f = py "service_tickets")
      then tickets ← traverse (dump_ticket exclude) (service_tickets obj);
           Ok (Some (PList tickets))
      else Ok None
  | t =>
      match getattr obj (name f) with
      | Some value => v ← serialize_value t value; Ok (Some v)
      | None => Ok None
      end
  end.

(** One iteration of the loop of [Schema._serialize]. *)
Definition dump_field (obj : Customer) (acc : result dict) (f : field)
  : result dict :=
  ret ← acc;
  value ← serialize f obj;
  Ok match value with
     | Some v => <[name f := v]> ret
     | None => ret
     end.

(** [Schema.dump] of a single object. *)
Definition dump (s : Schema) (obj : Customer) : result dict :=
  foldl (dump_field obj) (Ok ∅) (dump_fields s).

(** [LoginSchema.load]: validation only, the input is left as it is. *)
Definition login_load (s : Schema) (data : loc) (h : heap)
  : result dict * heap :=
  (validated s (h data), h).
End Pipeline.

(** ** The schemas of the module *)

(** The field declarations of [CustomerSchema], in the order of the class
    body. *)
Definition first_name_field : field :=
  {| name := py "first_name"; ftype := fields.Str; required := true;
     load_only := false; dump_only := false;
     validate := [validate.Length (Some 1) (Some 50)] |}.
Definition last_name_field : field :=
  {| name := py "last_name"; ftype := fields.Str; required := true;
     load_only := false; dump_only := false;
     validate := [validate.Length (Some 1) (Some 50)] |}.
Definition email_field : field :=
  {| name := py "email"; ftype := fields.Email; required := true;
     load_only := false; dump_only := false; validate := [] |}.
Definition password_field : field :=
  {| name := py "password"; ftype := fields.Str; required := true;
     load_only := true; dump_only := false;
     validate := [validate.Length (Some 6) None] |}.
Definition phone_field : field :=
  {| name := py "phone"; ftype := fields.Str; required := false;
     load_only := false; dump_only := false;
     validate := [validate.Length None (Some 20)] |}.
Definition address_field : field :=
  {| name := py "address"; ftype := fields.Str; required := false;
     load_only := false; dump_only := false;
     validate := [validate.Length None (Some 200)] |}.
Definition id_field : field :=
  {| name := py "id"; ftype := fields.Int; required := false;
     load_only := false; dump_only := true; validate := [] |}.
Definition created_at_field : field :=
  {| name := py "created_at"; ftype := fields.DateTime; required := false;
     load_only := false; dump_only := true; validate := [] |}.
Definition service_tickets_field : field :=
  {| name := py "service_tickets";
     ftype := fields.Nested (py "ServiceTicketSchema") [py "customer"];
     required := false; load_only := false; dump_only := true;
     validate := [] |}.
(** The [password] field of [LoginSchema], which is not [load_only]. *)
Definition login_password_field : field :=
  {| name := py "password"; ftype := fields.Str; required := true;
     load_only := false; dump_only := false;
     validate := [validate.Length (Some 6) None] |}.

Definition CustomerSchema (exclude : list pystr) : Schema :=
  {| declared :=
       [first_name_field; last_name_field; email_field; password_field;
        phone_field; address_field; id_field; created_at_field;
        service_tickets_field];
     exclude := exclude |}.

Definition LoginSchema : Schema :=
  {| declared := [email_field; login_password_field]; exclude := [] |}.

Definition customer_schema : Schema := CustomerSchema [].

Definition customer_simple_schema : Schema :=
  CustomerSchema [py "service_tickets"; py "password"].

Definition login_schema : Schema := LoginSchema.

(** * Vocabulary of the statements *)

(** Text made of white space only, and text with no white space at either
    end. *)
Definition whitespace (s : pystr) : Prop :=
  Forall (λ c, is_whitespace c = true) s.
Definition trimmed (s : pystr) : Prop :=
  (∀ c, head s = Some c → is_whitespace c = false)
  ∧ (∀ c, last s = Some c → is_whitespace c = false).

(** What the loop leaves under a key that held [value]. *)
Definition stripped (key : pystr) (value : pyval) : pyval :=
  match value with
  | PStr s => if bool_decide (key ≠ py "password") then PStr (strip s) else value
  | _ => value
  end.

Section Vocabulary.
Context `{Externals}.

(** The messages one load field contributes, if any. *)
Definition field_errors (f : field) (d : dict) : option (list violation) :=
  match deserialize f (d !! name f) with
  | Invalid errors => Some errors
  | _ => None
  end.

(** The value one load field contributes, if any. *)
Definition field_value (f : field) (d : dict) : option pyval :=
  match deserialize f (d !! name f) with
  | Value v => Some v
  | _ => None
  end.
(** The constraints of the data model, as the specification lists them:
    what can be wrong with the entry under a key of the normalised input,
    and the message it earns. *)
Inductive offends (d : dict) : pystr → list violation → Prop :=
  | required_omitted k :
      k ∈ [py "first_name"; py "last_name"; py "email"; py "password"] →
      d !! k = None →
      offends d k [Required]
  | not_a_string k v :
      k ∈ [py "first_name"; py "last_name"; py "password"; py "phone";
           py "address"] →
      d !! k = Some v → v ≠ PNone → is_str v = false →
      offends d k [InvalidString]
  | email_not_a_string v :
      d !! py "email" = Some v → v ≠ PNone → is_str v = false →
      offends d (py "email") [InvalidEmail]
  | name_length k s :
      k ∈ [py "first_name"; py "last_name"] →
      d !! k = Some (PStr s) → ¬ (1 ≤ length s ≤ 50) →
      offends d k [LengthBetween 1 50]
  | email_syntax s :
      d !! py "email" = Some (PStr s) → email_ok s = false →
      offends d (py "email") [InvalidEmail]
  | password_short s :
      d !! py "password" = Some (PStr s) → length s < 6 →
      offends d (py "password") [TooShort 6]
  | phone_long s :
      d !! py "phone" = Some (PStr s) → 20 < length s →
      offends d (py "phone") [TooLong 20]
  | address_long s :
      d !! py "address" = Some (PStr s) → 200 < length s →
      offends d (py "address") [TooLong 200].

(** A ticket every dumped field of which serializes. *)
Definition ticket_ok (exclude : list pystr) (ticket : ServiceTicket) : Prop :=
  ∀ kf, kf ∈ ticket_dump_fields → kf.1 ∉ exclude → ∃ v, kf.2 ticket = Ok v.

Definition none_or (shape : pyval → bool) (v : pyval) : bool :=
  match v with PNone => true | _ => shape v end.

Definition is_int (v : pyval) : bool :=
  match v with PInt _ => true | _ => false end.

Definition is_datetime (v : pyval) : bool :=
  match v with PDateTime _ => true | _ => false end.

(** A record as the persistence layer holds it: every attribute is unset or
    has the type of its column, and its tickets serialize. Nothing is asked
    of the contents of the strings. *)
Definition well_formed (obj : Customer) : Prop :=
  none_or is_int (id obj) ∧ none_or is_str (first_name obj)
  ∧ none_or is_str (last_name obj) ∧ none_or is_str (email obj)
  ∧ none_or is_str (phone obj) ∧ none_or is_str (address obj)
  ∧ none_or is_datetime (created_at obj)
  ∧ Forall (ticket_ok [py "customer"]) (service_tickets obj).
End Vocabulary.

(** The values of a byte, and a sequence of bytes such as [os.urandom]
    returns. *)
Definition byte_values : list N := N.of_nat <$> seq 0 256.
Definition bytes (l : list N) : Prop := Forall (λ b, (b < 256)%N) l.

(** Stand-ins for the imports, to run the model on examples: no code point
    beyond ASCII is alphanumeric or a digit, the IDNA codec refuses
    everything, the digest is all zero, bcrypt refuses a password of more
    than 72 bytes as it does from 5.0 on, and a ticket is the mapping of
    its attributes. *)
Definition sample_externals : Externals :=
  {| unicode_alnum := λ _, false;
     unicode_decimal := λ _, false;
     idna_encode := λ _, None;
     bcrypt_core := λ _ _, replicate 23 0%N;
     bcrypt_refuses := λ password, 72 <? length password;
     str_builtin := λ _, py "<object>";
     int_builtin := λ _, Raise TypeError;
     isoformat := λ _, py "2024-01-01T00:00:00";
     ServiceTicket := dict;
     ticket_dump_fields :=
       [(py "id", λ t, Ok (default PNone (t !! py "id")));
        (py "description", λ t, Ok (default PNone (t !! py "description")));
        (py "customer", λ t, Ok (default PNone (t !! py "customer")))] |}.

(** A store in which the reference [l] denotes the mapping [d]. *)
Definition store_with (l : loc) (d : dict) : heap :=
  <[l := PDict d]> (λ _, PNone).

(** The request bodies of the examples. *)
Definition ann_body : dict :=
  list_to_map
    [(py "first_name", PStr (py " Ann ")); (py "last_name", PStr (py "Lee"));
     (py "email", PStr (py "ann@example.com"));
     (py "password", PStr (py "secret1"))].

Definition marked_body : dict :=
  list_to_map
    [(py "first_name", PStr (py "Ann")); (py "last_name", PStr (py "Lee"));
     (py "email", PStr (py "ann@example.com"));
     (py "password", PStr (py "$2secret"))].

Definition bad_body : dict :=
  list_to_map
    [(py "email", PStr (py "bad-email")); (py "password", PStr (py "123"))].

Definition login_ok_body : dict :=
  list_to_map
    [(py "email", PStr (py "a@b.com")); (py "password", PStr (py "abcdef"))].

Definition login_short_body : dict :=
  list_to_map
    [(py "email", PStr (py "a@b.com")); (py "password", PStr (py "abc"))].

(** A valid body whose password holds a lone surrogate (U+D800), as a JSON
    escape can produce. *)
Definition surrogate_body : dict :=
  <[py "password" := PStr (py "secret" ++ [55296%N])]> ann_body.

(** A stored record with one ticket. *)
Definition ann_record : @Customer sample_externals :=
  {| id := PInt 7; first_name := PStr (py "Ann"); last_name := PStr (py "Lee");
     email := PStr (py "ann@example.com");
     password := PStr (py "$2b$12$abcdefghijklmnopqrstuv");
     phone := PNone; address := PStr (py "1 Main St");
     created_at := PDateTime 0;
     service_tickets :=
       [ ({[ py "id" := PInt 1; py "customer" := PInt 7 ]} : dict) ]
       : list (@ServiceTicket sample_externals) |}.


Definition ascii_only (bs : list N) : Prop := Forall (λ b, (b < 128)%N) bs.

(** A stored record no field of which would pass validation. *)
Definition unvalidated_record : @Customer sample_externals :=
  {| id := PNone; first_name := PStr []; last_name := PStr (replicate 60 120%N);
     email := PStr (py "bad-email"); password := PStr (py "123");
     phone := PNone; address := PNone; created_at := PNone;
     service_tickets :=
       [ ({[ py "id" := PInt 1 ]} : dict) ]
       : list (@ServiceTicket sample_externals) |}.

(** ** Vocabulary of the further properties *)

(** An entry that holds a string with the property [P]. *)
Definition text_entry (d : dict) (k : pystr) (P : pystr → Prop) : Prop :=
  ∃ s, d !! k = Some (PStr s) ∧ P s.

(** The names of the fields a Customer body may hold. *)
Definition customer_keys : list pystr :=
  [py "first_name"; py "last_name"; py "email"; py "password"; py "phone";
   py "address"].

Section Acceptable.
Context `{Externals}.

(** The bodies [CustomerSchema] lets through, read off the field
    declarations and the pre-load hook: the names and the email are judged
    after stripping, the password as it is, [phone] and [address] may be
    left out, and no other key may be there. *)
Definition acceptable (d : dict) : Prop :=
  text_entry d (py "first_name") (λ s, 1 ≤ length (strip s) ≤ 50)
  ∧ text_entry d (py "last_name") (λ s, 1 ≤ length (strip s) ≤ 50)
  ∧ text_entry d (py "email") (λ s, email_ok (strip s) = true)
  ∧ text_entry d (py "password") (λ s, 6 ≤ length s)
  ∧ (d !! py "phone" = None
     ∨ text_entry d (py "phone") (λ s, length (strip s) ≤ 20))
  ∧ (d !! py "address" = None
     ∨ text_entry d (py "address") (λ s, length (strip s) ≤ 200))
  ∧ ∀ k, is_Some (d !! k) → k ∈ customer_keys.
End Acceptable.

Section Many.
Context `{Externals}.

(** [Schema.dump] of an instance built with [many=True]: the objects of
    the sequence are dumped one by one, in order. *)
Definition dump_many (s : Schema) (objs : list Customer) : result (list dict) :=
  traverse (dump s) objs.
End Many.

(** [customers_schema] and [customers_simple_schema]: the fields and the
    exclusions of their single-object counterparts, used through
    [dump_many]. *)
Definition customers_schema : Schema := CustomerSchema [].

Definition customers_simple_schema : Schema :=
  CustomerSchema [py "service_tickets"; py "password"].

(** The keys of a full dump. *)
Definition dump_keys : list pystr :=
  [py "first_name"; py "last_name"; py "email"; py "phone"; py "address";
   py "id"; py "created_at"; py "service_tickets"].

Section LoginOutcome.
Context `{Externals}.

(** [LoginSchema.load] refuses the body at [l], with [errors] under [k]. *)
Definition login_refuses (l : loc) (h : heap) (k : pystr)
    (errors : list violation) : Prop :=
  ∃ msgs, (login_load login_schema l h).1 = Raise (ValidationError msgs)
          ∧ msgs !! k = Some errors.
End LoginOutcome.

(** More bodies for the examples: Ann's with a blank first name, with a
    null phone, and with an [id] of the client's choosing. *)
Definition blank_name_body : dict :=
  <[py "first_name" := PStr (py "   ")]> ann_body.

Definition null_phone_body : dict := <[py "phone" := PNone]> ann_body.

Definition body_with_id : dict := <[py "id" := PInt 1]> ann_body.

(** Ann's body with a password of 73 characters, and with an email that is
    a number. *)
Definition long_password_body : dict :=
  <[py "password" := PStr (replicate 73 97%N)]> ann_body.

Definition number_email_body : dict := <[py "email" := PInt 5]> ann_body.

(** The record Ann's body loads into when [os.urandom] returns sixteen
    sevens. *)
Definition ann_loaded : @Customer sample_externals :=
  new_Customer
    (<[py "password" :=
         PStr (@hash_bytes sample_externals (py "secret1")
                 (gensalt (replicate 16 7%N)))]>
       (strip_items ann_body)).

(** The full dump of the stored record of the examples. *)
Definition ann_dump : dict :=
  match @dump sample_externals customer_schema ann_record with
  | Ok out => out
  | Raise _ => ∅
  end.

(** * Properties *)

(** ** The pre-load hook *)

(** [strip] removes white space from both ends, and nothing else. *)
Lemma lstrip_spec (s : pystr) :
  ∃ pre, s = pre ++ lstrip s ∧ whitespace pre
         ∧ ∀ c, head (lstrip s) = Some c → is_whitespace c = false.
Proof.
  induction s as [|c s (pre & Hs & Hpre & Hhead)].
  - exists []. split; [done|]. split; [constructor|]. by intros c [=].
  - simpl. destruct (is_whitespace c) eqn:Hc.
    + exists (c :: pre). split; [by rewrite Hs at 1|].
      split; [by constructor|done].
    + exists []. split; [done|]. split; [constructor|].
      by intros ? [= <-].
Qed.

Lemma strip_spec (s : pystr) :
  ∃ pre post, s = pre ++ strip s ++ post
              ∧ whitespace pre ∧ whitespace post ∧ trimmed (strip s).
Proof.
  unfold strip, rstrip.
  destruct (lstrip_spec s) as (pre & Hs & Hpre & Hhead).
  destruct (lstrip_spec (reverse (lstrip s))) as (trail & Hr & Htrail & Hlast).
  set (t := lstrip s) in *. set (u := lstrip (reverse t)) in *.
  assert (t = reverse u ++ reverse trail) as Ht.
  { by rewrite <- reverse_app, <- Hr, reverse_involutive. }
  exists pre, (reverse trail). split; [by rewrite <- Ht|].
  split; [done|]. split.
  { unfold whitespace in *. rewrite Forall_forall in Htrail.
    apply Forall_forall. intros c Hc. apply Htrail.
    by apply elem_of_reverse. }
  split.
  - intros c Hc. apply Hhead. rewrite Ht.
    destruct (reverse u); [done|]. done.
  - intros c Hc. apply Hlast. by rewrite last_reverse in Hc.
Qed.

Lemma map_fold_strip_item (acc data : dict) (k : pystr) :
  map_fold strip_item acc data !! k =
    match data !! k with
    | Some (PStr s) =>
        if bool_decide (k ≠ py "password") then Some (PStr (strip s)) else acc !! k
    | _ => acc !! k
    end.
Proof.
  revert k.
  apply (map_fold_weak_ind
           (λ r m, ∀ k, r !! k =
              match m !! k with
              | Some (PStr s) =>
                  if bool_decide (k ≠ py "password")
                  then Some (PStr (strip s)) else acc !! k
              | _ => acc !! k
              end)).
  - intros k. by rewrite lookup_empty.
  - intros i x m r Hfresh IH k.
    destruct (decide (i = k)) as [->|Hne].
    + rewrite lookup_insert_eq. specialize (IH k). rewrite Hfresh in IH.
      destruct x; simpl; try case_bool_decide; by rewrite ?lookup_insert_eq.
    + rewrite lookup_insert_ne by done. rewrite <- IH.
      destruct x; simpl; try case_bool_decide;
        by rewrite ?lookup_insert_ne by done.
Qed.

Lemma strip_items_lookup (data : dict) (k : pystr) :
  strip_items data !! k = stripped k <$> data !! k.
Proof.
  unfold strip_items. rewrite map_fold_strip_item.
  destruct (data !! k) as [v|] eqn:Hk; [|done].
  destruct v; simpl; try done. by case_bool_decide.
Qed.

Lemma strip_items_password (data : dict) :
  strip_items data !! py "password" = data !! py "password".
Proof.
  rewrite strip_items_lookup. destruct (data !! py "password") as [v|]; [|done].
  by destruct v.
Qed.

Lemma process_input_dict (l : loc) (h : heap) (d : dict) :
  h l = PDict d →
  process_input l h = (l, <[l := PDict (strip_items d)]> h).
Proof. intros Hl. unfold process_input. by rewrite Hl. Qed.

(** ** Field-by-field deserialization *)

Section LoadFacts.
Context `{Externals}.



Lemma store_field_other d acc f k :
  k ≠ name f →
  (store_field d acc f).1 !! k = acc.1 !! k
  ∧ (store_field d acc f).2 !! k = acc.2 !! k.
Proof.
  intros Hk. unfold store_field.
  destruct (deserialize f (d !! name f)); simpl;
    by rewrite ?lookup_insert_ne by done.
Qed.

Lemma foldl_store_field_other d fs acc k :
  k ∉ name <$> fs →
  (foldl (store_field d) acc fs).1 !! k = acc.1 !! k
  ∧ (foldl (store_field d) acc fs).2 !! k = acc.2 !! k.
Proof.
  revert acc. induction fs as [|f fs IH]; intros acc Hk; [done|].
  rewrite fmap_cons, not_elem_of_cons in Hk. destruct Hk as [Hne Hk].
  simpl. destruct (IH (store_field d acc f) Hk) as [-> ->].
  by apply store_field_other.
Qed.

Lemma foldl_store_field_at d fs acc f :
  NoDup (name <$> fs) → f ∈ fs →
  (foldl (store_field d) acc fs).1 !! name f
    = field_value f d ∪ acc.1 !! name f
  ∧ (foldl (store_field d) acc fs).2 !! name f
    = field_errors f d ∪ acc.2 !! name f.
Proof.
  revert acc. induction fs as [|g fs IH]; intros acc Hnd Hin.
  { by apply elem_of_nil in Hin. }
  rewrite fmap_cons in Hnd. apply NoDup_cons in Hnd as [Hg Hnd].
  apply elem_of_cons in Hin as [->|Hin]; simpl.
  - destruct (foldl_store_field_other d fs (store_field d acc g) _ Hg)
      as [-> ->].
    unfold store_field, field_value, field_errors.
    destruct (deserialize g (d !! name g)); simpl;
      rewrite ?lookup_insert_eq;
      by destruct (acc.1 !! name g), (acc.2 !! name g).
  - destruct (IH (store_field d acc g) Hnd Hin) as [-> ->].
    assert (name f ≠ name g) as Hne.
    { intros Heq. apply Hg. rewrite <- Heq. by apply list_elem_of_fmap_2. }
    by destruct (store_field_other d acc g _ Hne) as [-> ->].
Qed.

Lemma _deserialize_dict s d :
  _deserialize s (PDict d)
  = ((foldl (store_field d) (∅, ∅) (load_fields s)).1,
     (foldl (store_field d) (∅, ∅) (load_fields s)).2 ∪ unknown_errors s d).
Proof.
  unfold _deserialize. by destruct (foldl _ _ _).
Qed.

Lemma unknown_errors_lookup s d k :
  unknown_errors s d !! k =
    if decide (k ∈ name <$> load_fields s) then None
    else (λ _, [UnknownField]) <$> d !! k.
Proof.
  unfold unknown_errors. rewrite lookup_fmap, map_lookup_filter.
  destruct (d !! k) as [v|]; simpl; [|by case_decide].
  case_decide; [by rewrite option_guard_False by auto|].
  by rewrite option_guard_True.
Qed.

(** The messages of a load field are exactly the ones its own entry
    earns. *)
Lemma errors_at_field s d f :
  NoDup (name <$> load_fields s) → f ∈ load_fields s →
  (_deserialize s (PDict d)).2 !! name f = field_errors f d.
Proof.
  intros Hnd Hin. rewrite _deserialize_dict. simpl.
  rewrite lookup_union, unknown_errors_lookup.
  rewrite decide_True by by apply list_elem_of_fmap_2.
  destruct (foldl_store_field_at d _ (∅, ∅) f Hnd Hin) as [_ ->].
  simpl. rewrite lookup_empty.
  by destruct (field_errors f d).
Qed.

(** A key that is no load field is reported as unknown. *)
Lemma errors_at_unknown s d k :
  k ∉ name <$> load_fields s →
  (_deserialize s (PDict d)).2 !! k = (λ _, [UnknownField]) <$> d !! k.
Proof.
  intros Hk. rewrite _deserialize_dict. simpl.
  rewrite lookup_union, unknown_errors_lookup, decide_False by done.
  destruct (foldl_store_field_other d _ (∅, ∅) k Hk) as [_ ->].
  simpl. rewrite lookup_empty. by destruct (d !! k).
Qed.

Lemma ret_at_field s d f :
  NoDup (name <$> load_fields s) → f ∈ load_fields s →
  (_deserialize s (PDict d)).1 !! name f = field_value f d.
Proof.
  intros Hnd Hin. rewrite _deserialize_dict. simpl.
  destruct (foldl_store_field_at d _ (∅, ∅) f Hnd Hin) as [-> _].
  simpl. rewrite lookup_empty. by destruct (field_value f d).
Qed.

Lemma ret_at_other s d k :
  k ∉ name <$> load_fields s →
  (_deserialize s (PDict d)).1 !! k = None.
Proof.
  intros Hk. rewrite _deserialize_dict. simpl.
  by destruct (foldl_store_field_other d _ (∅, ∅) k Hk) as [-> _].
Qed.

Lemma validated_unfold s v :
  validated s v =
    if decide ((_deserialize s v).2 = ∅) then Ok (_deserialize s v).1
    else Raise (ValidationError (_deserialize s v).2).
Proof. unfold validated. by destruct (_deserialize s v). Qed.

Lemma validated_Ok s v ret :
  validated s v = Ok ret ↔
  (_deserialize s v).2 = ∅ ∧ ret = (_deserialize s v).1.
Proof.
  rewrite validated_unfold.
  destruct (decide ((_deserialize s v).2 = ∅)) as [He|He]; split.
  - by intros [= <-].
  - by intros [_ ->].
  - intros [=].
  - by intros [? _].
Qed.

Lemma validated_Raise s v e :
  validated s v = Raise e ↔
  (_deserialize s v).2 ≠ ∅ ∧ e = ValidationError (_deserialize s v).2.
Proof.
  rewrite validated_unfold.
  destruct (decide ((_deserialize s v).2 = ∅)) as [He|He]; split.
  - intros [=].
  - by intros [? _].
  - by intros [= <-].
  - by intros [_ ->].
Qed.

(** Whatever fails between the hooks is a [ValidationError]. *)
Lemma validated_cases s v :
  (∃ ret, validated s v = Ok ret)
  ∨ (∃ errors, validated s v = Raise (ValidationError errors) ∧ errors ≠ ∅).
Proof.
  rewrite validated_unfold. case_decide; eauto.
Qed.

(** One offending load field is enough to fail, and the error names it. *)
Lemma validated_reports s d f errors :
  NoDup (name <$> load_fields s) → f ∈ load_fields s →
  field_errors f d = Some errors →
  ∃ msgs, validated s (PDict d) = Raise (ValidationError msgs)
          ∧ msgs !! name f = Some errors.
Proof.
  intros Hnd Hin Herr. exists (_deserialize s (PDict d)).2.
  pose proof (errors_at_field s d f Hnd Hin) as Hat. rewrite Herr in Hat.
  split; [|done]. apply validated_Raise. split; [|done].
  intros Hemp. rewrite Hemp, lookup_empty in Hat. done.
Qed.

Lemma validated_reports_unknown s d k v :
  k ∉ name <$> load_fields s → d !! k = Some v →
  ∃ msgs, validated s (PDict d) = Raise (ValidationError msgs)
          ∧ msgs !! k = Some [UnknownField].
Proof.
  intros Hk Hv. exists (_deserialize s (PDict d)).2.
  pose proof (errors_at_unknown s d k Hk) as Hat. rewrite Hv in Hat.
  split; [|done]. apply validated_Raise. split; [|done].
  intros Hemp. rewrite Hemp, lookup_empty in Hat. done.
Qed.
End LoadFacts.

(** ** The schemas *)


Lemma customer_load_fields :
  load_fields customer_schema
  = [first_name_field; last_name_field; email_field; password_field;
     phone_field; address_field].
Proof. by vm_compute. Qed.

Lemma customer_dump_fields :
  dump_fields customer_schema
  = [first_name_field; last_name_field; email_field; phone_field;
     address_field; id_field; created_at_field; service_tickets_field].
Proof. by vm_compute. Qed.

Lemma customer_simple_dump_fields :
  dump_fields customer_simple_schema
  = [first_name_field; last_name_field; email_field; phone_field;
     address_field; id_field; created_at_field].
Proof. by vm_compute. Qed.

Lemma login_load_fields :
  load_fields login_schema = [email_field; login_password_field].
Proof. by vm_compute. Qed.

Lemma customer_load_names_NoDup : NoDup (name <$> load_fields customer_schema).
Proof. rewrite customer_load_fields. compute_done. Qed.

Lemma login_load_names_NoDup : NoDup (name <$> load_fields login_schema).
Proof. rewrite login_load_fields. compute_done. Qed.

(** ** Text and bytes *)

Lemma list_ind3 {A} (P : list A → Prop) :
  P [] → (∀ a, P [a]) → (∀ a b, P [a; b]) →
  (∀ a b c l, P l → P (a :: b :: c :: l)) →
  ∀ l, P l.
Proof.
  intros H0 H1 H2 H3 l.
  assert (∀ n l, length l ≤ n → P l) as Hall; [|by apply (Hall (length l))].
  clear l. induction n as [|n IH]; intros l Hlen.
  - destruct l; [done | simpl in Hlen; lia].
  - destruct l as [|a [|b [|c l]]]; [done..|].
    apply H3, IH. simpl in Hlen. lia.
Qed.


Lemma base64_char_ascii (i : N) : (base64_char i < 128)%N.
Proof.
  unfold base64_char.
  assert (ascii_only (Base64Code ++ [46%N])) as Hall.
  { unfold ascii_only. compute_done. }
  destruct (nth_in_or_default (N.to_nat (N.land i 63)) Base64Code 46%N)
    as [Hin | ->]; [|done].
  eapply Forall_forall in Hall; [done|].
  apply elem_of_app. left. by apply list_elem_of_In.
Qed.

Lemma encode_base64_ascii (data : list N) : ascii_only (encode_base64 data).
Proof.
  induction data as [|a|a b|a b c rest IH] using list_ind3; simpl;
    repeat (apply Forall_cons_2; [apply base64_char_ascii|]);
    [apply Forall_nil_2.. | done].
Qed.

Lemma encode_base64_length (data : list N) :
  length (encode_base64 data) = (4 * length data + 2) / 3.
Proof.
  induction data as [|a|a b|a b c rest IH] using list_ind3; [done..|].
  cbn [encode_base64 length app]. rewrite IH.
  replace (4 * S (S (S (length rest))) + 2) with (4 * length rest + 2 + 4 * 3)
    by lia.
  rewrite Nat.div_add by done. lia.
Qed.

(** ** The salt encoding is injective *)

Lemma byte_values_elem (b : N) : (b < 256)%N → b ∈ byte_values.
Proof.
  intros Hb. unfold byte_values. apply list_elem_of_fmap.
  exists (N.to_nat b). split; [by rewrite N2Nat.id|].
  apply elem_of_seq. lia.
Qed.

Lemma for_all_bytes (P : N → Prop) :
  Forall P byte_values → ∀ b, (b < 256)%N → P b.
Proof.
  intros Hall b Hb. eapply Forall_forall in Hall; [done|].
  by apply byte_values_elem.
Qed.

Lemma for_all_bytes2 (P : N → N → Prop) :
  Forall (λ a, Forall (P a) byte_values) byte_values →
  ∀ a b, (a < 256)%N → (b < 256)%N → P a b.
Proof.
  intros Hall a b Ha Hb.
  apply (for_all_bytes (P a)); [|done].
  by apply (for_all_bytes (λ a, Forall (P a) byte_values)).
Qed.

Lemma sextet1_arith (a : N) :
  (a < 256)%N → N.land (N.shiftr a 2) 63 = (a / 4)%N.
Proof. revert a. apply for_all_bytes. compute_done. Qed.

Lemma sextet2_arith (a b : N) :
  (a < 256)%N → (b < 256)%N →
  N.land (N.lor (N.shiftl (N.land a 3) 4) (N.land (N.shiftr b 4) 15)) 63
  = ((a mod 4) * 16 + b / 16)%N.
Proof. revert a b. apply for_all_bytes2. compute_done. Qed.

Lemma sextet3_arith (b c : N) :
  (b < 256)%N → (c < 256)%N →
  N.land (N.lor (N.shiftl (N.land b 15) 2) (N.land (N.shiftr c 6) 3)) 63
  = ((b mod 16) * 4 + c / 64)%N.
Proof. revert b c. apply for_all_bytes2. compute_done. Qed.

Lemma sextet4_arith (c : N) : (c < 256)%N → N.land c 63 = (c mod 64)%N.
Proof. revert c. apply for_all_bytes. compute_done. Qed.

Lemma sextet2_last_arith (a : N) :
  (a < 256)%N → N.land (N.shiftl (N.land a 3) 4) 63 = ((a mod 4) * 16)%N.
Proof. revert a. apply for_all_bytes. compute_done. Qed.

Lemma sextet3_last_arith (b : N) :
  (b < 256)%N → N.land (N.shiftl (N.land b 15) 2) 63 = ((b mod 16) * 4)%N.
Proof. revert b. apply for_all_bytes. compute_done. Qed.

Lemma base64_char_inj (i j : N) :
  base64_char i = base64_char j → N.land i 63 = N.land j 63.
Proof.
  unfold base64_char. intros Heq.
  assert (∀ k, N.to_nat (N.land k 63) < length Base64Code) as Hlt.
  { intros k. change 63%N with (N.ones 6). rewrite N.land_ones.
    pose proof (N.mod_lt k (2 ^ 6) ltac:(done)) as Hk.
    change (length Base64Code) with 64. lia. }
  assert (NoDup Base64Code) as Hnd by compute_done.
  apply N2Nat.inj.
  destruct (lookup_lt_is_Some_2 _ _ (Hlt i)) as [x Hx].
  destruct (lookup_lt_is_Some_2 _ _ (Hlt j)) as [y Hy].
  rewrite !nth_lookup, Hx, Hy in Heq. simpl in Heq. subst y.
  by eapply NoDup_lookup.
Qed.

(** Names the quotient and the remainder of [x] by [n]. *)
Ltac euclid x n :=
  let q := fresh "q" in
  let r := fresh "r" in
  pose proof (N.div_mod x n ltac:(done));
  pose proof (N.mod_lt x n ltac:(done));
  set (q := (x / n)%N) in *; set (r := (x mod n)%N) in *;
  clearbody q r.

Lemma quotients_inj1 (a a' : N) :
  (a / 4 = a' / 4)%N → ((a mod 4) * 16 = (a' mod 4) * 16)%N → a = a'.
Proof. euclid a 4%N. euclid a' 4%N. lia. Qed.

Lemma quotients_inj2 (a b a' b' : N) :
  (b < 256)%N → (b' < 256)%N →
  (a / 4 = a' / 4)%N →
  ((a mod 4) * 16 + b / 16 = (a' mod 4) * 16 + b' / 16)%N →
  ((b mod 16) * 4 = (b' mod 16) * 4)%N →
  a = a' ∧ b = b'.
Proof.
  euclid a 4%N. euclid a' 4%N. euclid b 16%N. euclid b' 16%N. lia.
Qed.

Lemma quotients_inj3 (a b c a' b' c' : N) :
  (b < 256)%N → (c < 256)%N → (b' < 256)%N → (c' < 256)%N →
  (a / 4 = a' / 4)%N →
  ((a mod 4) * 16 + b / 16 = (a' mod 4) * 16 + b' / 16)%N →
  ((b mod 16) * 4 + c / 64 = (b' mod 16) * 4 + c' / 64)%N →
  (c mod 64 = c' mod 64)%N →
  a = a' ∧ b = b' ∧ c = c'.
Proof.
  euclid a 4%N. euclid a' 4%N. euclid b 16%N. euclid b' 16%N.
  euclid c 64%N. euclid c' 64%N. lia.
Qed.

Lemma encode_base64_inj (data1 data2 : list N) :
  bytes data1 → bytes data2 → length data1 = length data2 →
  encode_base64 data1 = encode_base64 data2 → data1 = data2.
Proof.
  revert data2.
  induction data1 as [|a|a b|a b c rest IH] using list_ind3;
    intros data2 H1 H2 Hlen Henc.
  - by destruct data2.
  - destruct data2 as [|a' [|??]]; try done.
    apply Forall_cons in H1 as [Ha _]. apply Forall_cons in H2 as [Ha' _].
    injection Henc as E1%base64_char_inj E2%base64_char_inj.
    rewrite !sextet1_arith in E1 by done.
    rewrite !sextet2_last_arith in E2 by done.
    by rewrite (quotients_inj1 a a').
  - destruct data2 as [|a' [|b' [|??]]]; try done.
    apply Forall_cons in H1 as [Ha [Hb _]%Forall_cons].
    apply Forall_cons in H2 as [Ha' [Hb' _]%Forall_cons].
    injection Henc as E1%base64_char_inj E2%base64_char_inj E3%base64_char_inj.
    rewrite !sextet1_arith in E1 by done.
    rewrite !sextet2_arith in E2 by done.
    rewrite !sextet3_last_arith in E3 by done.
    by destruct (quotients_inj2 a b a' b') as [-> ->].
  - destruct data2 as [|a' [|b' [|c' rest']]]; try done.
    apply Forall_cons in H1 as [Ha [Hb [Hc H1]%Forall_cons]%Forall_cons].
    apply Forall_cons in H2 as [Ha' [Hb' [Hc' H2]%Forall_cons]%Forall_cons].
    cbn [encode_base64 app] in Henc.
    injection Henc as E1%base64_char_inj E2%base64_char_inj
                      E3%base64_char_inj E4%base64_char_inj Hrest.
    rewrite !sextet1_arith in E1 by done.
    rewrite !sextet2_arith in E2 by done.
    rewrite !sextet3_arith in E3 by done.
    rewrite !sextet4_arith in E4 by done.
    destruct (quotients_inj3 a b c a' b' c') as (-> & -> & ->); try done.
    f_equal. f_equal. f_equal. apply IH; try done. simpl in Hlen. lia.
Qed.

Lemma gensalt_inj (random1 random2 : list N) :
  bytes random1 → bytes random2 → length random1 = length random2 →
  gensalt random1 = gensalt random2 → random1 = random2.
Proof.
  intros H1 H2 Hlen Heq. unfold gensalt in Heq.
  apply app_inv_head in Heq. by apply encode_base64_inj.
Qed.

Lemma decode_utf8_ascii (bs : list N) :
  ascii_only bs → decode_utf8 bs = Some bs.
Proof.
  induction 1 as [|b bs Hb _ IH]; [done|].
  simpl. apply N.ltb_lt in Hb. rewrite Hb, IH. reflexivity.
Qed.

Lemma startswith_app (p rest : pystr) : startswith (p ++ rest) p = true.
Proof.
  induction p as [|c p IH]; [done|]. simpl. by rewrite N.eqb_refl, IH.
Qed.

Lemma startswith_spec (s p : pystr) :
  startswith s p = true ↔ ∃ rest, s = p ++ rest.
Proof.
  split.
  - revert s. induction p as [|c p IH]; intros s Hs; [by exists s|].
    destruct s as [|c' s]; [done|]. simpl in Hs.
    apply andb_true_iff in Hs as [->%N.eqb_eq Hs].
    destruct (IH _ Hs) as [rest ->]. by exists rest.
  - intros [rest ->]. apply startswith_app.
Qed.

Lemma gensalt_ascii (random : list N) : ascii_only (gensalt random).
Proof.
  unfold gensalt. apply Forall_app. split.
  - compute_done.
  - apply encode_base64_ascii.
Qed.

Lemma gensalt_length (random : list N) :
  length random = 16 → length (gensalt random) = 29.
Proof.
  intros Hlen. unfold gensalt.
  rewrite length_app, encode_base64_length, Hlen. done.
Qed.

Lemma gensalt_marker (random : list N) :
  startswith (gensalt random) (py "$2b$12$") = true.
Proof. apply startswith_app. Qed.

Section HashFacts.
Context `{Externals}.

Lemma hash_bytes_ascii (password random : list N) :
  ascii_only (hash_bytes password (gensalt random)).
Proof.
  unfold hash_bytes. apply Forall_app. split.
  - apply gensalt_ascii.
  - apply encode_base64_ascii.
Qed.

Lemma hash_bytes_marker (password random : list N) :
  startswith (hash_bytes password (gensalt random)) (py "$2b$12$") = true.
Proof.
  unfold hash_bytes, gensalt. rewrite <- app_assoc. apply startswith_app.
Qed.

(** Salts of the same length that differ give hashes that differ, whatever
    the passwords. *)
Lemma hash_bytes_salt_inj (p1 p2 salt1 salt2 : list N) :
  length salt1 = length salt2 →
  hash_bytes p1 salt1 = hash_bytes p2 salt2 → salt1 = salt2.
Proof.
  unfold hash_bytes. intros Hlen Heq. by apply app_inj_1 in Heq as [? _].
Qed.

(** The helper on a string it really hashes. *)
Lemma _hash_fresh (random : list N) (raw : pystr) (pw_bytes : list N) :
  raw ≠ [] → startswith raw (py "$2") = false →
  encode_utf8 raw = Some pw_bytes → bcrypt_refuses pw_bytes = false →
  _hash random (PStr raw) = Ok (PStr (hash_bytes pw_bytes (gensalt random))).
Proof.
  intros Hne Hpre Henc Hacc. unfold _hash, hashpw.
  destruct raw as [|c raw]; [done|]. cbn [truthy negb].
  rewrite Hpre, Henc, Hacc. cbn [mbind result_bind].
  by rewrite decode_utf8_ascii by apply hash_bytes_ascii.
Qed.

(** The helper on a string bcrypt refuses. *)
Lemma _hash_refused (random : list N) (raw : pystr) (pw_bytes : list N) :
  raw ≠ [] → startswith raw (py "$2") = false →
  encode_utf8 raw = Some pw_bytes → bcrypt_refuses pw_bytes = true →
  _hash random (PStr raw) = Raise ValueError.
Proof.
  intros Hne Hpre Henc Href. unfold _hash, hashpw.
  destruct raw as [|c raw]; [done|]. cbn [truthy negb].
  by rewrite Hpre, Henc, Href.
Qed.

(** The helper on a string the codec refuses. *)
Lemma _hash_unencodable (random : list N) (raw : pystr) :
  raw ≠ [] → startswith raw (py "$2") = false → encode_utf8 raw = None →
  _hash random (PStr raw) = Raise UnicodeEncodeError.
Proof.
  intros Hne Hpre Henc. unfold _hash.
  destruct raw as [|c raw]; [done|]. cbn [truthy negb].
  by rewrite Hpre, Henc.
Qed.

(** When the helper returns for a string it has to hash, the codec and
    bcrypt took the string. *)
Lemma _hash_fresh_Ok (random : list N) (raw : pystr) (out : pyval) :
  raw ≠ [] → startswith raw (py "$2") = false →
  _hash random (PStr raw) = Ok out →
  ∃ pw_bytes, encode_utf8 raw = Some pw_bytes
              ∧ bcrypt_refuses pw_bytes = false
              ∧ out = PStr (hash_bytes pw_bytes (gensalt random)).
Proof.
  intros Hne Hpre Hout.
  destruct (encode_utf8 raw) as [pw_bytes|] eqn:Henc.
  - destruct (bcrypt_refuses pw_bytes) eqn:Href.
    + by rewrite (_hash_refused _ _ _ Hne Hpre Henc Href) in Hout.
    + rewrite (_hash_fresh _ _ _ Hne Hpre Henc Href) in Hout.
      injection Hout as <-. by exists pw_bytes.
  - by rewrite (_hash_unencodable _ _ Hne Hpre Henc) in Hout.
Qed.

(** The guard of the helper. *)
Lemma _hash_guard (random : list N) (s : pystr) :
  startswith s (py "$2") = true → _hash random (PStr s) = Ok (PStr s).
Proof.
  intros Hpre. unfold _hash. destruct s as [|c s]; [done|].
  cbn [truthy negb]. by rewrite Hpre.
Qed.

Lemma _hash_falsy (random : list N) (v : pyval) :
  truthy v = false → _hash random v = Ok v.
Proof. intros Hv. unfold _hash. by rewrite Hv. Qed.

(** Whatever the helper returns for a string is the string itself or a
    text that carries the bcrypt marker. *)
Lemma _hash_str_cases (random : list N) (s : pystr) (out : pyval) :
  _hash random (PStr s) = Ok out →
  out = PStr s
  ∨ ∃ text, out = PStr text ∧ startswith text (py "$2b$12$") = true.
Proof.
  unfold _hash. destruct (negb (truthy (PStr s))); [by intros [= <-]; left|].
  destruct (startswith s (py "$2")); [by intros [= <-]; left|].
  destruct (encode_utf8 s) as [pw_bytes|]; [|done]. unfold hashpw.
  destruct (bcrypt_refuses pw_bytes); [done|]. cbn [mbind result_bind].
  rewrite decode_utf8_ascii by apply hash_bytes_ascii.
  intros [= <-]. right. eexists. split; [done|]. apply hash_bytes_marker.
Qed.
End HashFacts.

(** ** The load pipeline *)

Section PipelineFacts.
Context `{Externals}.

Lemma load_dict s random l h d :
  h l = PDict d →
  load s random l h
  = (validated s (PDict (strip_items d)) ≫= post_load random,
     <[l := PDict (strip_items d)]> h).
Proof.
  intros Hl. unfold load. rewrite (process_input_dict _ _ _ Hl).
  by rewrite fn_lookup_insert.
Qed.

Lemma deserialize_min6 (f : field) (raw : pystr) :
  ftype f = fields.Str → validate f = [validate.Length (Some 6) None] →
  deserialize f (Some (PStr raw))
  = if length raw <? 6 then Invalid [TooShort 6] else Value (PStr raw).
Proof.
  intros Ht Hv. unfold deserialize, validators. rewrite Ht, Hv. simpl.
  by destruct (length raw <? 6).
Qed.

(** A mapping that passes validation keeps the raw password, which has six
    characters or more. *)
Lemma validated_password d ret raw :
  d !! py "password" = Some (PStr raw) →
  validated customer_schema (PDict (strip_items d)) = Ok ret →
  ret !! py "password" = Some (PStr raw) ∧ 6 ≤ length raw.
Proof.
  intros Hpw [Hnone ->]%validated_Ok.
  assert (password_field ∈ load_fields customer_schema) as Hin.
  { rewrite customer_load_fields. set_solver. }
  pose proof (errors_at_field _ (strip_items d) _ customer_load_names_NoDup Hin)
    as Herr.
  pose proof (ret_at_field _ (strip_items d) _ customer_load_names_NoDup Hin)
    as Hret.
  rewrite Hnone, lookup_empty in Herr.
  unfold field_errors in Herr. unfold field_value in Hret.
  change (name password_field) with (py "password") in *.
  rewrite strip_items_password, Hpw, deserialize_min6 in Herr, Hret by done.
  destruct (length raw <? 6) eqn:Hlen; [done|].
  apply Nat.ltb_ge in Hlen. done.
Qed.

Lemma password_new_Customer (ret : dict) (p : pyval) :
  password (new_Customer (<[py "password" := p]> ret)) = p.
Proof. unfold new_Customer. simpl. by rewrite lookup_insert_eq. Qed.

Lemma post_load_password random ret raw :
  ret !! py "password" = Some (PStr raw) → raw ≠ [] →
  post_load random ret
  = _hash random (PStr raw)
      ≫= (λ p, Ok (new_Customer (<[py "password" := p]> ret))).
Proof.
  intros Hpw Hne. unfold post_load, hash_password. rewrite Hpw.
  destruct raw as [|c raw]; [done|]. cbn [truthy].
  by destruct (_hash random (PStr (c :: raw))).
Qed.
Lemma set_password_new_Customer (ret : dict) (p : pyval) :
  set_password (new_Customer ret) p
  = new_Customer (<[py "password" := p]> ret).
Proof.
  unfold set_password, new_Customer. cbn.
  rewrite lookup_insert_eq.
  by rewrite !lookup_insert_ne by compute_done.
Qed.

(** X21: the two post-load hooks commute: hashing the mapping and then
    building the instance gives what building the instance and then hashing
    it gives, so the result of [load] does not hang on the order in which
    the hooks are registered. *)
Lemma post_load_either_order random ret :
  post_load random ret
  = hash_password random (make_instance (Mapping ret))
      ≫= (λ data, match data with
                   | Instance c => Ok c
                   | Mapping _ => Raise TypeError
                   end).
Proof.
  unfold post_load, hash_password, make_instance.
  cbn [password new_Customer].
  destruct (ret !! py "password") as [raw|] eqn:Hpw; simpl; [|done].
  destruct (truthy raw); [|done].
  destruct (_hash random raw) as [p|e]; [|done]. simpl.
  by rewrite set_password_new_Customer.
Qed.
End PipelineFacts.

(** ** Password hashing on load *)

Section HashingClaims.
Context `{Externals}.

Lemma startswith_marker_short (text : pystr) :
  startswith text (py "$2b$12$") = true → startswith text (py "$2") = true.
Proof.
  intros [rest ->]%startswith_spec. apply startswith_spec.
  by exists (py "b$12$" ++ rest).
Qed.

Lemma marked_differs (text raw : pystr) :
  startswith text (py "$2b$12$") = true →
  startswith raw (py "$2") = false → text ≠ raw.
Proof.
  intros Htext Hraw ->. apply startswith_marker_short in Htext. congruence.
Qed.

(** C1 (amended): for an input mapping that passes validation, what
    [load] does hangs on the raw password. When it does not begin with
    [$2], its UTF-8 bytes go to [bcrypt.hashpw]: if bcrypt takes them,
    [load] returns a record whose password is a hash text beginning with
    [$2b$12$], hence not the raw password; if bcrypt refuses them (from
    5.0 on, more than 72 bytes), [load] ends in its [ValueError]; and if
    the codec cannot encode the password, in a [UnicodeEncodeError]. When
    the raw password begins with [$2], [load] returns a record that holds
    it as it was sent. *)
Theorem load_hashes_unmarked_password random l h d raw ret :
  h l = PDict d →
  d !! py "password" = Some (PStr raw) →
  validated customer_schema (PDict (strip_items d)) = Ok ret →
  (startswith raw (py "$2") = false →
   (∀ pw_bytes, encode_utf8 raw = Some pw_bytes →
      (bcrypt_refuses pw_bytes = false →
       ∃ c text,
         (load customer_schema random l h).1 = Ok c
         ∧ password c = PStr text
         ∧ startswith text (py "$2b$12$") = true
         ∧ text ≠ raw)
      ∧ (bcrypt_refuses pw_bytes = true →
         (load customer_schema random l h).1 = Raise ValueError))
   ∧ (encode_utf8 raw = None →
      (load customer_schema random l h).1 = Raise UnicodeEncodeError))
  ∧ (startswith raw (py "$2") = true →
     ∃ c, (load customer_schema random l h).1 = Ok c ∧ password c = PStr raw).
Proof.
  intros Hl Hpw Hvalid.
  destruct (validated_password d ret raw Hpw Hvalid) as [Hret Hlen].
  assert (raw ≠ []) as Hne by (intros ->; simpl in Hlen; lia).
  rewrite (load_dict _ _ _ _ _ Hl), Hvalid. cbn [fst mbind result_bind].
  rewrite (post_load_password _ _ _ Hret Hne).
  split; [intros Hpre; split; [intros pw_bytes Henc; split|]|].
  - intros Hacc.
    rewrite (_hash_fresh _ _ _ Hne Hpre Henc Hacc). cbn [mbind result_bind].
    eexists _, _. split; [done|]. rewrite password_new_Customer.
    split; [done|]. split; [apply hash_bytes_marker|].
    eapply marked_differs; [apply hash_bytes_marker | done].
  - intros Href. by rewrite (_hash_refused _ _ _ Hne Hpre Henc Href).
  - intros Henc. by rewrite (_hash_unencodable _ _ Hne Hpre Henc).
  - intros Hpre. rewrite (_hash_guard _ _ Hpre). cbn [mbind result_bind].
    eexists. split; [done|]. apply password_new_Customer.
Qed.

(** C3: the helper returns a string that begins with [$2] unchanged, and
    applying it to its own result returns that result unchanged, whatever
    salt either call draws. *)
Theorem _hash_idempotent random random' :
  (∀ s, startswith s (py "$2") = true → _hash random (PStr s) = Ok (PStr s))
  ∧ (∀ v out, _hash random v = Ok out → _hash random' out = Ok out).
Proof.
  split; [apply _hash_guard|].
  intros v out Hv.
  destruct (truthy v) eqn:Htruthy.
  - destruct v; try (unfold _hash in Hv; rewrite Htruthy in Hv; done).
    destruct (_hash_str_cases _ _ _ Hv) as [-> | (text & -> & Hmark)].
    + unfold _hash in *. rewrite Htruthy in *. cbn [negb] in *.
      destruct (startswith s (py "$2")) eqn:Hpre; [done|].
      destruct (encode_utf8 s) as [pw_bytes|]; [|done]. unfold hashpw in Hv.
      destruct (bcrypt_refuses pw_bytes); [done|].
      cbn [mbind result_bind] in Hv.
      rewrite decode_utf8_ascii in Hv by apply hash_bytes_ascii.
      injection Hv as Hv. exfalso. revert Hv. apply marked_differs.
      * apply hash_bytes_marker.
      * done.
    + by apply _hash_guard, startswith_marker_short.
  - rewrite (_hash_falsy _ _ Htruthy) in Hv. injection Hv as <-.
    by apply _hash_falsy.
Qed.

(** C10: the hash is drawn anew by every call. For the same raw password
    (not empty, not beginning with [$2]), when one [load] returns a record,
    a second [load] for which [os.urandom] hands [gensalt] sixteen fresh
    bytes, other than those of the first call, returns a record too, and the
    two password hashes are different texts. *)
Theorem load_fresh_salt_fresh_hash random1 random2 l h d raw c1 :
  h l = PDict d →
  d !! py "password" = Some (PStr raw) →
  startswith raw (py "$2") = false →
  bytes random1 → bytes random2 →
  length random1 = 16 → length random2 = 16 →
  random1 ≠ random2 →
  (load customer_schema random1 l h).1 = Ok c1 →
  ∃ c2 hash1 hash2,
    (load customer_schema random2 l h).1 = Ok c2
    ∧ password c1 = PStr hash1 ∧ password c2 = PStr hash2
    ∧ hash1 ≠ hash2.
Proof.
  intros Hl Hpw Hpre Hb1 Hb2 Hlen1 Hlen2 Hrandom.
  assert (gensalt random1 ≠ gensalt random2) as Hsalt.
  { intros Heq. apply Hrandom, gensalt_inj; congruence. }
  rewrite !(load_dict _ _ _ _ _ Hl). cbn [fst].
  destruct (validated customer_schema (PDict (strip_items d)))
    as [ret|e] eqn:Hvalid; [|done].
  destruct (validated_password d ret raw Hpw Hvalid) as [Hret Hlen].
  assert (raw ≠ []) as Hne by (intros ->; simpl in Hlen; lia).
  cbn [mbind result_bind]. rewrite !(post_load_password _ _ _ Hret Hne).
  destruct (_hash random1 (PStr raw)) as [p1|e] eqn:Hp1; [|done].
  destruct (_hash_fresh_Ok _ _ _ Hne Hpre Hp1) as (pw_bytes & Henc & Hacc & ->).
  rewrite (_hash_fresh _ _ _ Hne Hpre Henc Hacc). cbn [mbind result_bind].
  intros [= <-]. eexists _, _, _. split; [done|].
  rewrite !password_new_Customer. split; [done|]. split; [done|].
  intros Heq. apply Hsalt. eapply hash_bytes_salt_inj; [|done].
  by rewrite !gensalt_length.
Qed.
End HashingClaims.

(** The spec's example: Ann's password [secret1] comes back hashed. *)
Lemma load_hashes_unmarked_password_witness :
  ∃ c text,
    (@load sample_externals customer_schema (replicate 16 7%N) 1%positive
           (store_with 1%positive ann_body)).1 = Ok c
    ∧ password c = PStr text
    ∧ startswith text (py "$2b$12$") = true
    ∧ text ≠ py "secret1".
Proof.
  apply (proj1 (proj1 (proj1 (@load_hashes_unmarked_password
                               sample_externals (replicate 16 7%N) 1%positive
                               (store_with 1%positive ann_body) ann_body
                               (py "secret1")
                               (@_deserialize sample_externals customer_schema
                                  (PDict (strip_items ann_body))).1
                               eq_refl eq_refl eq_refl)
                      eq_refl) (py "secret1") eq_refl)).
  reflexivity.
Defined.

(** C1 as stated fails: a valid body whose password begins with [$2] is
    loaded into a record that holds the raw password itself, whatever the
    imports and the salt. *)
Lemma load_keeps_marked_password :
  ∃ raw,
    marked_body !! py "password" = Some (PStr raw)
    ∧ ∀ (E : Externals) (random : list N),
        ∃ c, (@load E customer_schema random 1%positive
                    (store_with 1%positive marked_body)).1 = Ok c
             ∧ password c = PStr raw.
Proof.
  exists (py "$2secret"). split; [by vm_compute|].
  intros E random. eexists. split; [vm_compute; reflexivity | reflexivity].
Qed.

Lemma load_fresh_salt_fresh_hash_witness :
  ∃ c2 hash1 hash2,
    (@load sample_externals customer_schema (replicate 16 9%N) 1%positive
           (store_with 1%positive ann_body)).1 = Ok c2
    ∧ @password sample_externals
        (new_Customer
           (<[py "password" :=
                PStr (@hash_bytes sample_externals (py "secret1")
                        (gensalt (replicate 16 7%N)))]>
              (strip_items ann_body))) = PStr hash1
    ∧ @password sample_externals c2 = PStr hash2
    ∧ hash1 ≠ hash2.
Proof.
  apply (@load_fresh_salt_fresh_hash sample_externals (replicate 16 7%N)
           (replicate 16 9%N) 1%positive (store_with 1%positive ann_body)
           ann_body (py "secret1")).
  - reflexivity.
  - reflexivity.
  - reflexivity.
  - compute_done.
  - compute_done.
  - reflexivity.
  - reflexivity.
  - by vm_compute.
  - vm_compute. reflexivity.
Defined.

(** ** Normalisation and validation on load *)

Lemma store_with_lookup (l : loc) (d : dict) : store_with l d l = PDict d.
Proof. unfold store_with. by rewrite fn_lookup_insert. Qed.

Arguments length_check : simpl never.
Arguments email_ok : simpl never.

(** Opens the deserialization of one of the declared fields. *)
Ltac unfold_field :=
  unfold field_errors, field_value, deserialize, validators,
    first_name_field, last_name_field, email_field, password_field,
    phone_field, address_field, login_password_field;
  cbn [name required ftype validate].

Section ValidationClaims.
Context `{Externals}.

Lemma load_raises s random l h d msgs :
  h l = PDict d →
  validated s (PDict (strip_items d)) = Raise (ValidationError msgs) →
  (load s random l h).1 = Raise (ValidationError msgs).
Proof. intros Hl Hv. by rewrite (load_dict _ _ _ _ _ Hl), Hv. Qed.

(** C4: [process_input] leaves under every key but [password] the
    stripped form of a string (the string without the white space at its
    two ends), and any other value, the password entry included, as it
    was; validation then runs on that mapping, so every field but the
    password is checked in its stripped form, while the password is checked
    on its raw length: below six characters it is refused. *)
Theorem load_validates_stripped_input random l h d :
  h l = PDict d →
  (∃ d', (process_input l h).2 l = PDict d'
         ∧ ∀ k, d' !! k = stripped k <$> d !! k)
  ∧ (∀ k s, k ≠ py "password" → d !! k = Some (PStr s) →
            strip_items d !! k = Some (PStr (strip s))
            ∧ trimmed (strip s)
            ∧ ∃ pre post, s = pre ++ strip s ++ post
                          ∧ whitespace pre ∧ whitespace post)
  ∧ (∀ k v, is_str v = false → d !! k = Some v → strip_items d !! k = Some v)
  ∧ strip_items d !! py "password" = d !! py "password"
  ∧ (load customer_schema random l h).1
    = validated customer_schema (PDict (strip_items d)) ≫= post_load random
  ∧ (∀ raw, d !! py "password" = Some (PStr raw) →
       (_deserialize customer_schema (PDict (strip_items d))).2 !! py "password"
       = if length raw <? 6 then Some [TooShort 6] else None)
  ∧ (∀ raw, d !! py "password" = Some (PStr raw) → length raw < 6 →
       ∃ msgs, (load customer_schema random l h).1 = Raise (ValidationError msgs)
               ∧ msgs !! py "password" = Some [TooShort 6]).
Proof.
  intros Hl.
  assert (password_field ∈ load_fields customer_schema) as Hin.
  { rewrite customer_load_fields. set_solver. }
  assert (∀ raw, d !! py "password" = Some (PStr raw) →
            field_errors password_field (strip_items d)
            = if length raw <? 6 then Some [TooShort 6] else None) as Hfield.
  { intros raw Hpw. unfold field_errors.
    change (name password_field) with (py "password").
    rewrite strip_items_password, Hpw, deserialize_min6 by done.
    by destruct (length raw <? 6). }
  split_and!.
  - exists (strip_items d).
    rewrite (process_input_dict _ _ _ Hl). simpl.
    rewrite fn_lookup_insert. split; [done|]. apply strip_items_lookup.
  - intros k s Hk Hs.
    destruct (strip_spec s) as (pre & post & ? & ? & ? & ?).
    split_and!; [|done|by exists pre, post].
    rewrite strip_items_lookup, Hs. simpl.
    by rewrite bool_decide_eq_true_2.
  - intros k v Hv Hk. rewrite strip_items_lookup, Hk. by destruct v.
  - apply strip_items_password.
  - by rewrite (load_dict _ _ _ _ _ Hl).
  - intros raw Hpw. rewrite <- (Hfield raw Hpw).
    by apply (errors_at_field _ _ password_field customer_load_names_NoDup).
  - intros raw Hpw Hlen.
    destruct (validated_reports customer_schema (strip_items d) password_field
                [TooShort 6] customer_load_names_NoDup Hin) as (msgs & Hv & Hm).
    { rewrite (Hfield raw Hpw). apply Nat.ltb_lt in Hlen. by rewrite Hlen. }
    exists msgs. split; [|done]. by apply (load_raises _ _ _ _ d).
Qed.

(** C9: [load] leaves the caller's mapping changed in place. Whether or not
    validation succeeds, after the call the reference that was passed
    denotes the mapping with every string but the password stripped; the hook
    returns that same reference; no other object is touched; and as soon as
    one string other than the password had white space around it, the
    caller's object is no longer what it was. *)
Theorem load_mutates_input s random l h d :
  h l = PDict d →
  let h' := (load s random l h).2 in
  (process_input l h).1 = l
  ∧ (∃ d', h' l = PDict d' ∧ ∀ k, d' !! k = stripped k <$> d !! k)
  ∧ (∀ l', l' ≠ l → h' l' = h l')
  ∧ (∀ k text, k ≠ py "password" → d !! k = Some (PStr text) →
       strip text ≠ text → h' l ≠ h l).
Proof.
  intros Hl h'. subst h'. rewrite (load_dict _ _ _ _ _ Hl). cbn [snd].
  rewrite (process_input_dict _ _ _ Hl). cbn [fst].
  repeat split.
  - exists (strip_items d). rewrite fn_lookup_insert.
    split; [done|]. apply strip_items_lookup.
  - intros l' Hne. by rewrite fn_lookup_insert_ne.
  - intros k text Hk Hd Hstrip. rewrite fn_lookup_insert, Hl.
    intros [= Heq].
    pose proof (strip_items_lookup d k) as Hlook.
    rewrite Heq, Hd in Hlook. simpl in Hlook.
    rewrite bool_decide_eq_true_2 in Hlook by done. congruence.
Qed.

Lemma field_errors_reported random l h d f errors :
  h l = PDict d → f ∈ load_fields customer_schema →
  field_errors f (strip_items d) = Some errors →
  ∃ msgs, (load customer_schema random l h).1 = Raise (ValidationError msgs)
          ∧ msgs !! name f = Some errors.
Proof.
  intros Hl Hin Herr.
  destruct (validated_reports customer_schema (strip_items d) f errors
              customer_load_names_NoDup Hin Herr) as (msgs & Hv & Hm).
  exists msgs. split; [|done]. by apply (load_raises _ _ _ _ d).
Qed.

Lemma length_check_between lo hi (s : pystr) :
  ¬ (lo ≤ length s ≤ hi) →
  length_check (Some lo) (Some hi) s = [LengthBetween lo hi].
Proof.
  intros Hlen. unfold length_check.
  destruct (length s <? lo) eqn:Hlo; [done|].
  destruct (hi <? length s) eqn:Hhi; [done|].
  apply Nat.ltb_ge in Hlo, Hhi. lia.
Qed.

Lemma length_check_max hi (s : pystr) :
  hi < length s → length_check None (Some hi) s = [TooLong hi].
Proof.
  intros Hlen. unfold length_check. apply Nat.ltb_lt in Hlen. by rewrite Hlen.
Qed.

Lemma length_check_min lo (s : pystr) :
  length s < lo → length_check (Some lo) None s = [TooShort lo].
Proof.
  intros Hlen. unfold length_check. apply Nat.ltb_lt in Hlen. by rewrite Hlen.
Qed.

(** Every way of offending the data model is an error of the field's own
    deserialization. *)
Lemma offends_field_errors d k errors :
  offends d k errors →
  ∃ f, f ∈ load_fields customer_schema ∧ name f = k
       ∧ field_errors f d = Some errors.
Proof.
  rewrite customer_load_fields.
  destruct 1 as [k Hk Hd | k v Hk Hd Hv Hstr | v Hd Hv Hstr | k s Hk Hd Hlen
                 | s Hd Hbad | s Hd Hlen | s Hd Hlen | s Hd Hlen].
  - repeat (apply elem_of_cons in Hk as [->|Hk]); [..|by apply elem_of_nil in Hk];
      [exists first_name_field | exists last_name_field | exists email_field
       | exists password_field];
      (split; [set_solver|]); (split; [done|]);
      unfold_field; by rewrite Hd.
  - repeat (apply elem_of_cons in Hk as [->|Hk]); [..|by apply elem_of_nil in Hk];
      [exists first_name_field | exists last_name_field
       | exists password_field | exists phone_field | exists address_field];
      (split; [set_solver|]); (split; [done|]);
      unfold_field; rewrite Hd;
      by destruct v.
  - exists email_field. split; [set_solver|]. split; [done|].
    unfold_field. rewrite Hd. by destruct v.
  - repeat (apply elem_of_cons in Hk as [->|Hk]); [..|by apply elem_of_nil in Hk];
      [exists first_name_field | exists last_name_field];
      (split; [set_solver|]); (split; [done|]);
      unfold_field; rewrite Hd; simpl;
      by rewrite length_check_between.
  - exists email_field. split; [set_solver|]. split; [done|].
    unfold_field. rewrite Hd. simpl.
    by rewrite Hbad.
  - exists password_field. split; [set_solver|]. split; [done|].
    unfold_field. rewrite Hd. simpl.
    by rewrite length_check_min.
  - exists phone_field. split; [set_solver|]. split; [done|].
    unfold_field. rewrite Hd. simpl.
    by rewrite length_check_max.
  - exists address_field. split; [set_solver|]. split; [done|].
    unfold_field. rewrite Hd. simpl.
    by rewrite length_check_max.
Qed.

(** C5: whenever an entry of the normalised input offends a constraint of
    the data model, or a required field is omitted, [load] raises a
    [ValidationError] whose messages name that field; and loading the body
    with [email] "bad-email" and [password] "123" raises one that cites
    [email], [password] and the missing [first_name] and [last_name]. *)
Theorem load_reports_offending_fields random l h d :
  h l = PDict d →
  (∀ k errors, offends (strip_items d) k errors →
     ∃ msgs, (load customer_schema random l h).1 = Raise (ValidationError msgs)
             ∧ msgs !! k = Some errors)
  ∧ ∀ l0, (load customer_schema random l0 (store_with l0 bad_body)).1
          = Raise (ValidationError
                     {[ py "email" := [InvalidEmail];
                        py "password" := [TooShort 6];
                        py "first_name" := [Required];
                        py "last_name" := [Required] ]}).
Proof.
  intros Hl. split.
  - intros k errors (f & Hin & <- & Herr)%offends_field_errors.
    by apply (field_errors_reported _ _ _ d).
  - intros l0. apply load_raises with (d := bad_body).
    + apply store_with_lookup.
    + by vm_compute.
Qed.
End ValidationClaims.

(** ** The login validator *)

Section LoginClaims.
Context `{Externals}.

Lemma login_email_in : email_field ∈ load_fields login_schema.
Proof. rewrite login_load_fields. set_solver. Qed.

Lemma login_password_in : login_password_field ∈ load_fields login_schema.
Proof. rewrite login_load_fields. set_solver. Qed.

Lemma login_names :
  name <$> load_fields login_schema = [py "email"; py "password"].
Proof. by rewrite login_load_fields. Qed.

Lemma email_not_password : py "email" ≠ py "password".
Proof. compute_done. Qed.

Lemma not_login_name (k : pystr) :
  k ≠ py "email" → k ≠ py "password" →
  k ∉ name <$> load_fields login_schema.
Proof.
  intros Hk1 Hk2. rewrite login_names, !not_elem_of_cons.
  split_and!; [done..|]. apply not_elem_of_nil.
Qed.

(** What the email field accepts. *)
Lemma email_field_accepts d :
  field_errors email_field d = None ↔
  ∃ e, d !! py "email" = Some (PStr e) ∧ email_ok e = true.
Proof.
  unfold_field. destruct (d !! py "email") as [[]|]; simpl;
    try (split; [done | by intros (? & [=] & ?)]).
  destruct (email_ok s) eqn:Hok; simpl.
  - split; [by exists s | done].
  - split; [done | intros (e & [= <-] & ?); congruence].
Qed.

(** What a password field of six characters or more accepts. *)
Lemma login_password_field_accepts d :
  field_errors login_password_field d = None ↔
  ∃ p, d !! py "password" = Some (PStr p) ∧ 6 ≤ length p.
Proof.
  unfold field_errors. change (name login_password_field) with (py "password").
  destruct (d !! py "password") as [v|] eqn:Hd;
    [|split; [done | by intros (? & [=] & ?)]].
  destruct v; try (split; [done | by intros (? & [=] & ?)]).
  rewrite deserialize_min6 by done.
  destruct (length s <? 6) eqn:Hlen.
  - apply Nat.ltb_lt in Hlen. split; [done | intros (p & [= <-] & ?); lia].
  - apply Nat.ltb_ge in Hlen. split; [by exists s | done].
Qed.

Lemma login_validated_spec d ret :
  validated login_schema (PDict d) = Ok ret ↔
  ∃ e p, d = {[ py "email" := PStr e; py "password" := PStr p ]}
         ∧ email_ok e = true ∧ 6 ≤ length p ∧ ret = d.
Proof.
  rewrite validated_Ok. split.
  - intros [Hnone ->].
    pose proof (errors_at_field _ d _ login_load_names_NoDup login_email_in)
      as He.
    pose proof (errors_at_field _ d _ login_load_names_NoDup login_password_in)
      as Hp.
    rewrite Hnone, lookup_empty in He, Hp.
    symmetry in He, Hp.
    apply email_field_accepts in He as (e & He & Hok).
    apply login_password_field_accepts in Hp as (p & Hp & Hlen).
    assert (∀ k, k ≠ py "email" → k ≠ py "password" → d !! k = None) as Hrest.
    { intros k Hk1 Hk2.
      pose proof (errors_at_unknown login_schema d k
                    (not_login_name k Hk1 Hk2)) as Hu.
      rewrite Hnone, lookup_empty in Hu.
      by destruct (d !! k). }
    assert (d = {[ py "email" := PStr e; py "password" := PStr p ]}) as Hd.
    { apply map_eq. intros k.
      destruct (decide (k = py "email")) as [->|Hk1].
      { by rewrite lookup_insert_eq. }
      rewrite lookup_insert_ne by done.
      destruct (decide (k = py "password")) as [->|Hk2].
      { by rewrite lookup_singleton_eq. }
      rewrite lookup_singleton_ne by done. by apply Hrest. }
    exists e, p. repeat split; [done..|].
    apply map_eq. intros k.
    destruct (decide (k = py "email")) as [->|Hk1].
    { rewrite (ret_at_field _ d _ login_load_names_NoDup login_email_in), He.
      unfold_field. rewrite He. simpl. by rewrite Hok. }
    destruct (decide (k = py "password")) as [->|Hk2].
    { rewrite (ret_at_field _ d _ login_load_names_NoDup login_password_in), Hp.
      unfold field_value. change (name login_password_field) with (py "password").
      rewrite Hp, deserialize_min6 by done.
      apply Nat.ltb_ge in Hlen. by rewrite Hlen. }
    rewrite ret_at_other, Hrest; [done..|]. by apply not_login_name.
  - intros (e & p & Hd & Hok & Hlen & ->).
    assert (d !! py "email" = Some (PStr e)) as He.
    { by rewrite Hd, lookup_insert_eq. }
    assert (d !! py "password" = Some (PStr p)) as Hp.
    { rewrite Hd, lookup_insert_ne by apply email_not_password.
      by rewrite lookup_singleton_eq. }
    assert (∀ k, k ≠ py "email" → k ≠ py "password" → d !! k = None) as Hrest.
    { intros k Hk1 Hk2. rewrite Hd, lookup_insert_ne by done.
      by rewrite lookup_singleton_ne. }
    assert (field_value email_field d = Some (PStr e)) as Hve.
    { unfold_field. rewrite He. simpl. by rewrite Hok. }
    assert (field_value login_password_field d = Some (PStr p)) as Hvp.
    { unfold field_value. change (name login_password_field) with (py "password").
      rewrite Hp, deserialize_min6 by done.
      apply Nat.ltb_ge in Hlen. by rewrite Hlen. }
    split.
    + apply map_empty. intros k.
      destruct (decide (k = py "email")) as [->|Hk1].
      { rewrite (errors_at_field _ d _ login_load_names_NoDup login_email_in).
        apply email_field_accepts. eauto. }
      destruct (decide (k = py "password")) as [->|Hk2].
      { rewrite (errors_at_field _ d _ login_load_names_NoDup login_password_in).
        apply login_password_field_accepts. eauto. }
      rewrite errors_at_unknown, Hrest; [done..|]. by apply not_login_name.
    + apply map_eq. intros k.
      destruct (decide (k = py "email")) as [->|Hk1].
      { by rewrite (ret_at_field _ d _ login_load_names_NoDup login_email_in),
          Hve, He. }
      destruct (decide (k = py "password")) as [->|Hk2].
      { by rewrite (ret_at_field _ d _ login_load_names_NoDup login_password_in),
          Hvp, Hp. }
      rewrite ret_at_other, Hrest; [done..|]. by apply not_login_name.
Qed.

(** C6: [LoginSchema] accepts a mapping exactly when it consists of an
    [email] that is a string of valid syntax and a [password] that is a
    string of six characters or more, and nothing else; it returns the
    mapping, leaves the store alone, and fails only with a
    [ValidationError]. It accepts the body with [a@b.com] and [abcdef] and
    refuses the one with [abc], naming [password]; the Customer validator,
    which is a schema of its own, refuses the body that login accepts. *)
Theorem login_schema_validates_email_and_password random l h d :
  h l = PDict d →
  (∀ ret, (login_load login_schema l h).1 = Ok ret ↔
     ∃ e p, d = {[ py "email" := PStr e; py "password" := PStr p ]}
            ∧ email_ok e = true ∧ 6 ≤ length p ∧ ret = d)
  ∧ (∀ e, (login_load login_schema l h).1 = Raise e →
       ∃ msgs, e = ValidationError msgs ∧ msgs ≠ ∅)
  ∧ (login_load login_schema l h).2 = h
  ∧ (∀ l0, (login_load login_schema l0 (store_with l0 login_ok_body)).1
           = Ok login_ok_body)
  ∧ (∀ l0, (login_load login_schema l0 (store_with l0 login_short_body)).1
           = Raise (ValidationError {[ py "password" := [TooShort 6] ]}))
  ∧ (∀ l0, ∃ msgs,
       (load customer_schema random l0 (store_with l0 login_ok_body)).1
       = Raise (ValidationError msgs)
       ∧ msgs !! py "first_name" = Some [Required]).
Proof.
  intros Hl. unfold login_load. cbn [fst snd]. rewrite Hl.
  repeat split.
  - by intros ?%login_validated_spec.
  - by intros ?%login_validated_spec.
  - intros e He.
    destruct (validated_cases login_schema (PDict d))
      as [[ret Hret] | (msgs & Hmsgs & Hne)]; [congruence|].
    exists msgs. split; [congruence | done].
  - intros l0. rewrite store_with_lookup. by vm_compute.
  - intros l0. rewrite store_with_lookup. by vm_compute.
  - intros l0. eexists. split.
    + apply load_raises with (d := login_ok_body); [apply store_with_lookup|].
      vm_compute. reflexivity.
    + by vm_compute.
Qed.
End LoginClaims.

(** ** Dump *)

Section DumpFacts.
Context `{Externals}.

Lemma traverse_Ok {A B} (f : A → result B) (l : list A) (vs : list B) :
  traverse f l = Ok vs ↔ Forall2 (λ a b, f a = Ok b) l vs.
Proof.
  revert vs. induction l as [|a l IH]; intros vs; simpl.
  - split; [intros [= <-]; constructor | by intros ->%Forall2_nil_inv_l].
  - destruct (f a) as [b|e] eqn:Hfa; simpl.
    + destruct (traverse f l) as [bs|e] eqn:Hl; simpl.
      * split.
        -- intros [= <-]. constructor; [done|]. by apply IH.
        -- intros (b' & bs' & Hb & Hbs & ->)%Forall2_cons_inv_l.
           apply IH in Hbs. congruence.
      * split; [done|].
        intros (b' & bs' & Hb & Hbs & ->)%Forall2_cons_inv_l.
        apply IH in Hbs. done.
    + split; [done|].
      intros (b' & bs' & Hb & Hbs & ->)%Forall2_cons_inv_l. congruence.
Qed.

Lemma traverse_total {A B} (f : A → result B) (l : list A) :
  Forall (λ a, ∃ b, f a = Ok b) l → ∃ vs, traverse f l = Ok vs.
Proof.
  induction 1 as [|a l [b Hb] _ [vs Hvs]]; simpl; [by eexists|].
  rewrite Hb, Hvs. by eexists.
Qed.

Lemma dump_field_Ok obj acc f :
  dump_field obj (Ok acc) f
  = match serialize f obj with
    | Ok (Some v) => Ok (<[name f := v]> acc)
    | Ok None => Ok acc
    | Raise e => Raise e
    end.
Proof. unfold dump_field. simpl. by destruct (serialize f obj) as [[v|]|e]. Qed.

Lemma dump_ticket_field_Ok ticket acc kf :
  dump_ticket_field ticket (Ok acc) kf
  = match kf.2 ticket with
    | Ok v => Ok (<[kf.1 := v]> acc)
    | Raise e => Raise e
    end.
Proof. unfold dump_ticket_field. simpl. by destruct (kf.2 ticket). Qed.

Lemma foldl_dump_field_Raise obj e fs :
  foldl (dump_field obj) (Raise e) fs = Raise e.
Proof. induction fs as [|f fs IH]; [done|]. apply IH. Qed.

(** A key that names none of the fields is left as it was. *)
Lemma foldl_dump_field_other obj acc fs out k :
  foldl (dump_field obj) (Ok acc) fs = Ok out →
  k ∉ name <$> fs → out !! k = acc !! k.
Proof.
  revert acc. induction fs as [|f fs IH]; intros acc Hout Hk.
  { by injection Hout as <-. }
  rewrite fmap_cons, not_elem_of_cons in Hk. destruct Hk as [Hne Hk].
  cbn [foldl] in Hout. rewrite dump_field_Ok in Hout.
  destruct (serialize f obj) as [[v|]|e]; simpl in Hout.
  - rewrite (IH _ Hout Hk). by rewrite lookup_insert_ne.
  - by apply IH.
  - by rewrite foldl_dump_field_Raise in Hout.
Qed.

(** A field of the schema is serialized, and its value is what the output
    holds under its name. *)
Lemma foldl_dump_field_at obj acc fs out f :
  NoDup (name <$> fs) → f ∈ fs →
  foldl (dump_field obj) (Ok acc) fs = Ok out →
  ∃ v, serialize f obj = Ok v ∧ out !! name f = v ∪ acc !! name f.
Proof.
  revert acc. induction fs as [|g fs IH]; intros acc Hnd Hin Hout.
  { by apply elem_of_nil in Hin. }
  rewrite fmap_cons in Hnd. apply NoDup_cons in Hnd as [Hg Hnd].
  cbn [foldl] in Hout. rewrite dump_field_Ok in Hout.
  apply elem_of_cons in Hin as [->|Hin].
  - destruct (serialize g obj) as [[v|]|e]; simpl in Hout.
    + exists (Some v). split; [done|].
      rewrite (foldl_dump_field_other _ _ _ _ _ Hout Hg), lookup_insert_eq.
      by destruct (acc !! name g).
    + exists None. split; [done|].
      rewrite (foldl_dump_field_other _ _ _ _ _ Hout Hg).
      by destruct (acc !! name g).
    + by rewrite foldl_dump_field_Raise in Hout.
  - assert (name f ≠ name g) as Hne.
    { intros Heq. apply Hg. rewrite <- Heq. by apply list_elem_of_fmap_2. }
    destruct (serialize g obj) as [[v|]|e]; simpl in Hout.
    + destruct (IH _ Hnd Hin Hout) as (w & Hw & Hlook).
      exists w. split; [done|]. by rewrite Hlook, lookup_insert_ne.
    + by apply IH.
    + by rewrite foldl_dump_field_Raise in Hout.
Qed.

(** Leaving a field out of the schema leaves its key out of the output and
    changes nothing else. *)
Lemma foldl_dump_field_delete obj acc fs out k :
  foldl (dump_field obj) (Ok acc) fs = Ok out →
  foldl (dump_field obj) (Ok (delete k acc)) (filter (λ f, name f ≠ k) fs)
  = Ok (delete k out).
Proof.
  revert acc. induction fs as [|f fs IH]; intros acc Hout.
  { by injection Hout as <-. }
  cbn [foldl] in Hout. rewrite dump_field_Ok in Hout.
  destruct (serialize f obj) as [[v|]|e] eqn:Hser; simpl in Hout;
    [| |by rewrite foldl_dump_field_Raise in Hout].
  - apply IH in Hout. rewrite filter_cons. case_decide as Hk.
    + cbn [foldl]. rewrite dump_field_Ok, Hser.
      by rewrite <- delete_insert_ne.
    + subst k. by rewrite delete_insert_eq in Hout.
  - apply IH in Hout. rewrite filter_cons. case_decide as Hk; [|done].
    cbn [foldl]. by rewrite dump_field_Ok, Hser.
Qed.

Lemma foldl_dump_field_total obj acc fs :
  (∀ f, f ∈ fs → ∃ v, serialize f obj = Ok v) →
  ∃ out, foldl (dump_field obj) (Ok acc) fs = Ok out.
Proof.
  revert acc. induction fs as [|f fs IH]; intros acc Hall; [by eexists|].
  cbn [foldl]. rewrite dump_field_Ok.
  destruct (Hall f) as [[v|] ->]; [by left|..]; apply IH;
    intros g Hg; apply Hall; by right.
Qed.

Lemma foldl_dump_ticket_field_Raise ticket e kfs :
  foldl (dump_ticket_field ticket) (Raise e) kfs = Raise e.
Proof. induction kfs as [|kf kfs IH]; [done|]. apply IH. Qed.

Lemma foldl_dump_ticket_field_other ticket acc kfs out k :
  foldl (dump_ticket_field ticket) (Ok acc) kfs = Ok out →
  k ∉ kfs.*1 → out !! k = acc !! k.
Proof.
  revert acc. induction kfs as [|kf kfs IH]; intros acc Hout Hk.
  { by injection Hout as <-. }
  rewrite fmap_cons, not_elem_of_cons in Hk. destruct Hk as [Hne Hk].
  cbn [foldl] in Hout. rewrite dump_ticket_field_Ok in Hout.
  destruct (kf.2 ticket) as [v|e]; simpl in Hout.
  - rewrite (IH _ Hout Hk). by rewrite lookup_insert_ne.
  - by rewrite foldl_dump_ticket_field_Raise in Hout.
Qed.

Lemma foldl_dump_ticket_field_total ticket acc kfs :
  (∀ kf, kf ∈ kfs → ∃ v, kf.2 ticket = Ok v) →
  ∃ out, foldl (dump_ticket_field ticket) (Ok acc) kfs = Ok out.
Proof.
  revert acc. induction kfs as [|kf kfs IH]; intros acc Hall; [by eexists|].
  cbn [foldl]. rewrite dump_ticket_field_Ok.
  destruct (Hall kf) as [v ->]; [by left|].
  apply IH. intros g Hg. apply Hall. by right.
Qed.

(** A dumped ticket is a mapping without the excluded keys. *)
Lemma dump_ticket_excludes exclude ticket v :
  dump_ticket exclude ticket = Ok v →
  ∃ d, v = PDict d ∧ ∀ k, k ∈ exclude → d !! k = None.
Proof.
  unfold dump_ticket.
  destruct (foldl _ _ _) as [d|e] eqn:Hfold; [|done].
  intros [= <-]. exists d. split; [done|]. intros k Hk.
  rewrite (foldl_dump_ticket_field_other _ _ _ _ k Hfold); [done|].
  intros (kf & -> & [Hkf _]%list_elem_of_filter)%list_elem_of_fmap. done.
Qed.

Lemma dump_ticket_total exclude ticket :
  ticket_ok exclude ticket → ∃ v, dump_ticket exclude ticket = Ok v.
Proof.
  intros Hok. unfold dump_ticket.
  destruct (foldl_dump_ticket_field_total ticket ∅
              (filter (λ kf, kf.1 ∉ exclude) ticket_dump_fields)) as [d ->].
  - intros kf [Hkf Hin]%list_elem_of_filter. by apply Hok.
  - by eexists.
Qed.
End DumpFacts.

Lemma customer_dump_names_NoDup : NoDup (name <$> dump_fields customer_schema).
Proof. rewrite customer_dump_fields. compute_done. Qed.

Lemma customer_simple_dump_filter :
  dump_fields customer_simple_schema
  = filter (λ f, name f ≠ py "service_tickets") (dump_fields customer_schema).
Proof. by vm_compute. Qed.

(** [password] is [load_only]: no instance of the schema dumps it, whatever
    it excludes. *)
Lemma password_not_dumped (exclude : list pystr) :
  py "password" ∉ name <$> dump_fields (CustomerSchema exclude).
Proof.
  intros (f & Hname & [[Hlo _] Hin]%list_elem_of_filter)%list_elem_of_fmap.
  cbn [declared CustomerSchema] in Hin.
  repeat (apply elem_of_cons in Hin as [->|Hin]);
    [done..|by apply elem_of_nil in Hin].
Qed.

Section DumpClaims.
Context `{Externals}.

Lemma serialize_plain (f : field) (obj : Customer) (value : pyval) :
  (∀ schema exclude, ftype f ≠ fields.Nested schema exclude) →
  getattr obj (name f) = Some value →
  serialize f obj = serialize_value (ftype f) value ≫= (λ v, Ok (Some v)).
Proof.
  intros Hplain Hattr. unfold serialize. rewrite Hattr.
  destruct (ftype f); try done. by destruct (Hplain schema exclude0).
Qed.

Lemma serialize_service_tickets (obj : Customer) :
  serialize service_tickets_field obj
  = traverse (dump_ticket [py "customer"]) (service_tickets obj)
      ≫= (λ tickets, Ok (Some (PList tickets))).
Proof. done. Qed.

Lemma serialize_value_str (v : pyval) :
  none_or is_str v → ∃ w, serialize_value fields.Str v = Ok w.
Proof. destruct v; try done; by eexists. Qed.

Lemma serialize_value_email (v : pyval) :
  none_or is_str v → ∃ w, serialize_value fields.Email v = Ok w.
Proof. destruct v; try done; by eexists. Qed.

Lemma serialize_value_int (v : pyval) :
  none_or is_int v → ∃ w, serialize_value fields.Int v = Ok w.
Proof. destruct v; try done; by eexists. Qed.

Lemma serialize_value_datetime (v : pyval) :
  none_or is_datetime v → ∃ w, serialize_value fields.DateTime v = Ok w.
Proof. destruct v; try done; by eexists. Qed.

(** Every dumped field of a well-formed record serializes. *)
Lemma well_formed_serialize (obj : Customer) (f : field) :
  well_formed obj → f ∈ dump_fields customer_schema →
  ∃ v, serialize f obj = Ok v.
Proof.
  intros (Hid & Hfirst & Hlast & Hemail & Hphone & Haddress & Hcreated & Htickets).
  rewrite customer_dump_fields. intros Hin.
  repeat (apply elem_of_cons in Hin as [->|Hin]);
    [..|by apply elem_of_nil in Hin].
  - rewrite (serialize_plain _ _ (first_name obj)) by done.
    destruct (serialize_value_str _ Hfirst) as [w Hw].
    cbn [ftype first_name_field]. rewrite Hw. by eexists.
  - rewrite (serialize_plain _ _ (last_name obj)) by done.
    destruct (serialize_value_str _ Hlast) as [w Hw].
    cbn [ftype last_name_field]. rewrite Hw. by eexists.
  - rewrite (serialize_plain _ _ (email obj)) by done.
    destruct (serialize_value_email _ Hemail) as [w Hw].
    cbn [ftype email_field]. rewrite Hw. by eexists.
  - rewrite (serialize_plain _ _ (phone obj)) by done.
    destruct (serialize_value_str _ Hphone) as [w Hw].
    cbn [ftype phone_field]. rewrite Hw. by eexists.
  - rewrite (serialize_plain _ _ (address obj)) by done.
    destruct (serialize_value_str _ Haddress) as [w Hw].
    cbn [ftype address_field]. rewrite Hw. by eexists.
  - rewrite (serialize_plain _ _ (id obj)) by done.
    destruct (serialize_value_int _ Hid) as [w Hw].
    cbn [ftype id_field]. rewrite Hw. by eexists.
  - rewrite (serialize_plain _ _ (created_at obj)) by done.
    destruct (serialize_value_datetime _ Hcreated) as [w Hw].
    cbn [ftype created_at_field]. rewrite Hw. by eexists.
  - rewrite serialize_service_tickets.
    destruct (traverse_total (dump_ticket [py "customer"]) (service_tickets obj))
      as [vs ->]; [|by eexists].
    eapply Forall_impl; [exact Htickets|]. apply dump_ticket_total.
Qed.

(** C2: the output of [dump] has no [password] key, in the full mode and
    in the simple mode, for whatever record: the field is not among the
    dumped ones, so no output holds its key, and a well-formed record does
    have an output. *)
Theorem dump_never_emits_password (obj : Customer) :
  (py "password" ∉ name <$> dump_fields customer_schema)
  ∧ (py "password" ∉ name <$> dump_fields customer_simple_schema)
  ∧ (∀ out, dump customer_schema obj = Ok out → out !! py "password" = None)
  ∧ (∀ out, dump customer_simple_schema obj = Ok out →
            out !! py "password" = None)
  ∧ (well_formed obj →
     ∃ out, dump customer_schema obj = Ok out ∧ out !! py "password" = None).
Proof.
  split_and!.
  - apply password_not_dumped.
  - apply password_not_dumped.
  - intros out Hout.
    rewrite (foldl_dump_field_other _ _ _ _ (py "password") Hout); [done|].
    apply password_not_dumped.
  - intros out Hout.
    rewrite (foldl_dump_field_other _ _ _ _ (py "password") Hout); [done|].
    apply password_not_dumped.
  - intros Hwf.
    destruct (foldl_dump_field_total obj ∅ (dump_fields customer_schema))
      as [out Hout]; [intros f Hf; by apply well_formed_serialize|].
    exists out. split; [done|].
    rewrite (foldl_dump_field_other _ _ _ _ (py "password") Hout); [done|].
    apply password_not_dumped.
Qed.

(** C7: the full mode puts under [service_tickets] the list of the
    record's tickets, each dumped by the ticket schema without its
    [customer] key; the simple mode has no [service_tickets] key; and the
    output of the simple mode is the output of the full mode with that one
    key removed. *)
Theorem full_dump_is_simple_dump_plus_tickets (obj : Customer) (out : dict) :
  dump customer_schema obj = Ok out →
  (∃ tickets,
     out !! py "service_tickets" = Some (PList tickets)
     ∧ Forall2 (λ ticket v,
                  dump_ticket [py "customer"] ticket = Ok v
                  ∧ ∃ d, v = PDict d ∧ d !! py "customer" = None)
               (service_tickets obj) tickets)
  ∧ dump customer_simple_schema obj = Ok (delete (py "service_tickets") out)
  ∧ (∀ out', dump customer_simple_schema obj = Ok out' →
             out' !! py "service_tickets" = None
             ∧ ∀ k, k ≠ py "service_tickets" → out' !! k = out !! k).
Proof.
  intros Hout.
  assert (dump customer_simple_schema obj
          = Ok (delete (py "service_tickets") out)) as Hsimple.
  { unfold dump. rewrite customer_simple_dump_filter.
    rewrite <- (delete_empty (py "service_tickets")) at 1.
    by apply foldl_dump_field_delete. }
  split_and!.
  - destruct (foldl_dump_field_at obj ∅ _ out service_tickets_field
                customer_dump_names_NoDup) as (v & Hv & Hlook); [|done|].
    { rewrite customer_dump_fields. set_solver. }
    rewrite serialize_service_tickets in Hv.
    destruct (traverse _ _) as [tickets|e] eqn:Htr; [|done].
    injection Hv as <-. exists tickets. split; [done|].
    apply traverse_Ok in Htr.
    eapply Forall2_impl; [exact Htr|]. intros ticket w Hw. split; [done|].
    destruct (dump_ticket_excludes _ _ _ Hw) as (d & -> & Hd).
    exists d. split; [done|]. apply Hd. set_solver.
  - done.
  - intros out' Hout'. rewrite Hsimple in Hout'. injection Hout' as <-.
    split; [apply lookup_delete_eq|].
    intros k Hk. by rewrite lookup_delete_ne.
Qed.

(** C8: [dump] validates nothing and does not fail on a well-formed
    record: in both modes it returns an output, hence raises neither a
    [ValidationError] nor anything else, whatever the strings of the record
    contain. *)
Theorem dump_never_fails (obj : Customer) :
  well_formed obj →
  (∃ out, dump customer_schema obj = Ok out)
  ∧ (∃ out, dump customer_simple_schema obj = Ok out)
  ∧ (∀ e, dump customer_schema obj ≠ Raise e)
  ∧ (∀ e, dump customer_simple_schema obj ≠ Raise e).
Proof.
  intros Hwf.
  destruct (foldl_dump_field_total obj ∅ (dump_fields customer_schema))
    as [out Hout]; [intros f Hf; by apply well_formed_serialize|].
  assert (dump customer_simple_schema obj
          = Ok (delete (py "service_tickets") out)) as Hsimple.
  { unfold dump. rewrite customer_simple_dump_filter.
    rewrite <- (delete_empty (py "service_tickets")) at 1.
    by apply foldl_dump_field_delete. }
  split_and!.
  - by exists out.
  - by eexists.
  - intros e. unfold dump. by rewrite Hout.
  - intros e. by rewrite Hsimple.
Qed.
End DumpClaims.

(** ** What load returns is what dump takes *)

Section LoadThenDump.
Context `{Externals}.

Lemma load_Ok_inv s random l h c :
  (load s random l h).1 = Ok c →
  ∃ d ret, h l = PDict d
           ∧ validated s (PDict (strip_items d)) = Ok ret
           ∧ post_load random ret = Ok c.
Proof.
  destruct (h l) as [ | ? | ? | ? | ? | ? | ? | d ] eqn:Hl;
    try (unfold load, process_input; rewrite Hl; cbn [fst]; rewrite Hl;
         by intros [=]).
  rewrite (load_dict _ _ _ _ _ Hl). cbn [fst].
  destruct (validated s (PDict (strip_items d))) as [ret|e] eqn:Hv; [|done].
  intros Hpost. by exists d, ret.
Qed.

(** A string field deserializes to a string. *)
Lemma field_value_is_str f d v :
  field_value f d = Some v → is_str v = true.
Proof.
  unfold field_value, deserialize.
  destruct (d !! name f) as [[]|]; try done;
    try (destruct (required f); done);
    try (destruct (ftype f); done).
  destruct (ftype f); try done;
    destruct (mjoin _); try done; by intros [= <-].
Qed.

Lemma validated_attr d ret f :
  validated customer_schema (PDict d) = Ok ret →
  f ∈ load_fields customer_schema →
  none_or is_str (default PNone (ret !! name f)).
Proof.
  intros [_ ->]%validated_Ok Hin.
  rewrite (ret_at_field _ _ _ customer_load_names_NoDup Hin).
  destruct (field_value f d) as [v|] eqn:Hv; [|done].
  apply field_value_is_str in Hv. by destruct v.
Qed.

(** Every record [load] returns is well formed, so [dump] takes it. *)
Lemma load_returns_well_formed random l h c :
  (load customer_schema random l h).1 = Ok c → well_formed c.
Proof.
  intros (d & ret & Hl & Hv & Hpost)%load_Ok_inv.
  assert (∀ f, f ∈ load_fields customer_schema →
               none_or is_str (default PNone (ret !! name f))) as Hattr.
  { intros f Hf. by eapply validated_attr. }
  assert (∃ ret', c = new_Customer ret'
                  ∧ ∀ k, k ≠ py "password" → ret' !! k = ret !! k) as Hc.
  { unfold post_load, hash_password in Hpost.
    destruct (ret !! py "password") as [raw|];
      [destruct (truthy raw); [destruct (_hash random raw) as [p|e]|]|];
      simpl in Hpost; try done; injection Hpost as <-.
    - eexists. split; [done|]. intros k Hk. by rewrite lookup_insert_ne.
    - by eexists.
    - by eexists. }
  destruct Hc as (ret' & -> & Hsame).
  rewrite customer_load_fields in Hattr.
  unfold well_formed, new_Customer.
  cbn [id first_name last_name email phone address created_at service_tickets].
  rewrite !Hsame by compute_done.
  split_and!; [done| | | | | |done|done].
  - apply (Hattr first_name_field). set_solver.
  - apply (Hattr last_name_field). set_solver.
  - apply (Hattr email_field). set_solver.
  - apply (Hattr phone_field). set_solver.
  - apply (Hattr address_field). set_solver.
Qed.
End LoadThenDump.

(** ** The theorems at work on the examples *)

Lemma load_validates_stripped_input_witness :
  ∃ msgs,
    (@load sample_externals customer_schema [] 1%positive
           (store_with 1%positive bad_body)).1 = Raise (ValidationError msgs)
    ∧ msgs !! py "password" = Some [TooShort 6].
Proof.
  apply (@load_validates_stripped_input sample_externals [] 1%positive
           (store_with 1%positive bad_body) bad_body eq_refl)
    with (raw := py "123").
  - reflexivity.
  - vm_compute. lia.
Defined.

Lemma load_mutates_input_witness :
  (@load sample_externals customer_schema (replicate 16 7%N) 1%positive
         (store_with 1%positive ann_body)).2 1%positive
  ≠ store_with 1%positive ann_body 1%positive
  ∧ ∃ d', (@load sample_externals customer_schema (replicate 16 7%N) 1%positive
                 (store_with 1%positive ann_body)).2 1%positive = PDict d'
          ∧ d' !! py "first_name" = Some (PStr (py "Ann")).
Proof.
  pose proof (@load_mutates_input sample_externals customer_schema
                (replicate 16 7%N) 1%positive (store_with 1%positive ann_body)
                ann_body eq_refl) as (_ & (d' & Hd' & Hlook) & _ & Hchanged).
  split.
  - apply (Hchanged (py "first_name") (py " Ann ")); by vm_compute.
  - exists d'. split; [exact Hd'|]. rewrite Hlook. reflexivity.
Defined.

Lemma load_reports_offending_fields_witness :
  ∃ msgs,
    (@load sample_externals customer_schema [] 1%positive
           (store_with 1%positive bad_body)).1 = Raise (ValidationError msgs)
    ∧ msgs !! py "email" = Some [InvalidEmail].
Proof.
  apply (proj1 (@load_reports_offending_fields sample_externals [] 1%positive
                  (store_with 1%positive bad_body) bad_body eq_refl)).
  apply (email_syntax _ (py "bad-email")); reflexivity.
Defined.

Lemma login_schema_validates_email_and_password_witness :
  ∃ e p,
    login_ok_body = {[ py "email" := PStr e; py "password" := PStr p ]}
    ∧ @email_ok sample_externals e = true ∧ 6 ≤ length p
    ∧ login_ok_body = login_ok_body.
Proof.
  apply (proj1 (@login_schema_validates_email_and_password sample_externals
                  [] 1%positive (store_with 1%positive login_ok_body)
                  login_ok_body eq_refl)).
  reflexivity.
Defined.

Lemma full_dump_is_simple_dump_plus_tickets_witness :
  ∃ out,
    @dump sample_externals customer_schema ann_record = Ok out
    ∧ @dump sample_externals customer_simple_schema ann_record
      = Ok (delete (py "service_tickets") out).
Proof.
  eexists. split; [vm_compute; reflexivity|].
  apply (@full_dump_is_simple_dump_plus_tickets sample_externals ann_record).
  vm_compute. reflexivity.
Defined.

Lemma unvalidated_record_well_formed :
  @well_formed sample_externals unvalidated_record.
Proof.
  repeat split. apply Forall_cons_2; [|apply Forall_nil_2].
  intros kf Hin _.
  repeat (apply elem_of_cons in Hin as [->|Hin]);
    [by eexists..|by apply elem_of_nil in Hin].
Defined.

Lemma dump_never_fails_witness :
  (∃ out, @dump sample_externals customer_schema unvalidated_record = Ok out)
  ∧ (∃ out, @dump sample_externals customer_simple_schema unvalidated_record
            = Ok out).
Proof.
  pose proof (@dump_never_fails sample_externals unvalidated_record
                unvalidated_record_well_formed) as (Hfull & Hsimple & _).
  exact (conj Hfull Hsimple).
Defined.

(** The example of the specification: Ann's first name comes back stripped,
    her email as it was, her password as a hash text. *)
Lemma load_ann_body :
  ∃ c hash,
    (@load sample_externals customer_schema (replicate 16 7%N) 1%positive
           (store_with 1%positive ann_body)).1 = Ok c
    ∧ first_name c = PStr (py "Ann")
    ∧ email c = PStr (py "ann@example.com")
    ∧ password c = PStr hash ∧ length hash = 60.
Proof. eexists _, _. split_and!; vm_compute; reflexivity. Qed.

(** A password that holds a lone surrogate passes validation and then
    stops [encode]: the call ends in a [UnicodeEncodeError], not in a
    record. *)
Lemma load_surrogate_password :
  ∀ (E : Externals) (random : list N),
    (@load E customer_schema random 1%positive
           (store_with 1%positive surrogate_body)).1 = Raise UnicodeEncodeError.
Proof. intros E random. vm_compute. reflexivity. Qed.

(** A password of 73 characters passes validation, which asks for six or
    more; with a bcrypt that refuses its 73 bytes the call ends in a
    [ValueError], with one that takes them in a record. *)
Lemma load_long_password :
  ∀ (E : Externals) (random : list N),
    (@bcrypt_refuses E (replicate 73 97%N) = true →
     (@load E customer_schema random 1%positive
            (store_with 1%positive long_password_body)).1 = Raise ValueError)
    ∧ (@bcrypt_refuses E (replicate 73 97%N) = false →
       ∃ c, (@load E customer_schema random 1%positive
                   (store_with 1%positive long_password_body)).1 = Ok c).
Proof.
  intros E random.
  assert (@validated E customer_schema
            (PDict (strip_items long_password_body))
          = Ok (strip_items long_password_body)) as Hv
    by (vm_compute; reflexivity).
  rewrite (load_dict _ _ _ _ long_password_body) by apply store_with_lookup.
  cbn [fst]. rewrite Hv. cbn [mbind result_bind].
  rewrite (post_load_password _ _ (replicate 73 97%N)) by done.
  split; intros Hb.
  - by rewrite (_hash_refused _ _ (replicate 73 97%N)).
  - rewrite (_hash_fresh _ _ (replicate 73 97%N)) by done.
    by eexists.
Qed.

(** An email that is a number earns the message of the email field, not
    the one of a string field. *)
Lemma load_number_email :
  ∀ (E : Externals) (random : list N),
    (@load E customer_schema random 1%positive
           (store_with 1%positive number_email_body)).1
    = Raise (ValidationError {[ py "email" := [InvalidEmail] ]}).
Proof. intros E random. vm_compute. reflexivity. Qed.

(** * Further properties *)

(** ** More on the pre-load hook *)

Lemma lstrip_trimmed (s : pystr) :
  (∀ c, head s = Some c → is_whitespace c = false) → lstrip s = s.
Proof.
  destruct s as [|c s]; [done|]. intros Hc. simpl. by rewrite (Hc c).
Qed.

Lemma strip_trimmed (s : pystr) : trimmed s → strip s = s.
Proof.
  intros [Hhead Hlast]. unfold strip, rstrip.
  rewrite (lstrip_trimmed s Hhead), lstrip_trimmed.
  - apply reverse_involutive.
  - intros c Hc. apply Hlast. by rewrite <- head_reverse.
Qed.

Lemma strip_idempotent (s : pystr) : strip (strip s) = strip s.
Proof.
  destruct (strip_spec s) as (pre & post & _ & _ & _ & Htrim).
  by apply strip_trimmed.
Qed.

Lemma strip_length (s : pystr) : length (strip s) ≤ length s.
Proof.
  destruct (strip_spec s) as (pre & post & Hs & _).
  rewrite Hs at 2. rewrite !length_app. lia.
Qed.

Lemma lstrip_whitespace (s : pystr) : whitespace s → lstrip s = [].
Proof.
  induction 1 as [|c s Hc _ IH]; [done|]. simpl. by rewrite Hc.
Qed.

Lemma strip_whitespace (s : pystr) : whitespace s → strip s = [].
Proof.
  intros Hs. unfold strip. by rewrite (lstrip_whitespace s Hs).
Qed.

Lemma stripped_idempotent (k : pystr) (v : pyval) :
  stripped k (stripped k v) = stripped k v.
Proof.
  destruct v; try done. unfold stripped.
  destruct (bool_decide (k ≠ py "password")) eqn:Hk; simpl;
    by rewrite ?Hk, ?strip_idempotent.
Qed.

Lemma strip_items_idempotent (d : dict) :
  strip_items (strip_items d) = strip_items d.
Proof.
  apply map_eq. intros k. rewrite !strip_items_lookup.
  destruct (d !! k) as [v|]; [|done]. simpl. by rewrite stripped_idempotent.
Qed.

Lemma strip_items_dom (d : dict) : dom (strip_items d) = dom d.
Proof.
  apply set_eq. intros k. rewrite !elem_of_dom, strip_items_lookup.
  by rewrite fmap_is_Some.
Qed.

(** ** Which bodies pass validation *)

Section Acceptance.
Context `{Externals}.

Lemma validated_Ok_iff s d ret :
  NoDup (name <$> load_fields s) →
  validated s (PDict d) = Ok ret ↔
  (∀ f, f ∈ load_fields s → field_errors f d = None)
  ∧ (∀ k, k ∉ name <$> load_fields s → d !! k = None)
  ∧ ret = (_deserialize s (PDict d)).1.
Proof.
  intros Hnd. rewrite validated_Ok. split.
  - intros [Hnone ->]. split_and!; [| |done].
    + intros f Hf. rewrite <- (errors_at_field s d f Hnd Hf), Hnone.
      apply lookup_empty.
    + intros k Hk. pose proof (errors_at_unknown s d k Hk) as Hu.
      rewrite Hnone, lookup_empty in Hu. by destruct (d !! k).
  - intros (Hfields & Hunknown & ->). split; [|done].
    apply map_empty. intros k.
    destruct (decide (k ∈ name <$> load_fields s)) as [Hk|Hk].
    + apply list_elem_of_fmap in Hk as (f & -> & Hf).
      rewrite (errors_at_field s d f Hnd Hf). by apply Hfields.
    + rewrite (errors_at_unknown s d k Hk), (Hunknown k Hk). done.
Qed.

(** A string field that raises no error hands on what it was given. *)
Lemma field_accepted_value f d :
  ftype f = fields.Str ∨ ftype f = fields.Email →
  field_errors f d = None → field_value f d = d !! name f.
Proof.
  unfold field_errors, field_value, deserialize.
  intros Ht. destruct (d !! name f) as [v|].
  - destruct v; destruct Ht as [Ht|Ht]; rewrite ?Ht; try done;
      by destruct (mjoin _).
  - by destruct (required f).
Qed.

(** When every load field is a string field, the validated data is the
    input itself. *)
Lemma validated_returns_input s d ret :
  NoDup (name <$> load_fields s) →
  (∀ f, f ∈ load_fields s → ftype f = fields.Str ∨ ftype f = fields.Email) →
  validated s (PDict d) = Ok ret → ret = d.
Proof.
  intros Hnd Hstr (Hfields & Hunknown & ->)%validated_Ok_iff; [|done].
  apply map_eq. intros k.
  destruct (decide (k ∈ name <$> load_fields s)) as [Hk|Hk].
  - apply list_elem_of_fmap in Hk as (f & -> & Hf).
    rewrite (ret_at_field s d f Hnd Hf).
    apply field_accepted_value; auto.
  - by rewrite (ret_at_other s d k Hk), (Hunknown k Hk).
Qed.

Lemma length_check_nil lo hi (s : pystr) :
  length_check lo hi s = [] ↔
  (∀ n, lo = Some n → n ≤ length s) ∧ (∀ n, hi = Some n → length s ≤ n).
Proof.
  unfold length_check. destruct lo as [lo|], hi as [hi|].
  - destruct (length s <? lo) eqn:Hlo; destruct (hi <? length s) eqn:Hhi;
      simpl; rewrite ?Nat.ltb_lt, ?Nat.ltb_ge in *;
      (split; [try done | intros [Ha Hb]; specialize (Ha _ eq_refl);
                          specialize (Hb _ eq_refl); try lia; done]).
    split; intros ? [= <-]; done.
  - destruct (length s <? lo) eqn:Hlo;
      rewrite ?Nat.ltb_lt, ?Nat.ltb_ge in *;
      (split; [try done | intros [Ha _]; specialize (Ha _ eq_refl); try lia; done]).
    split; [by intros ? [= <-] | done].
  - destruct (hi <? length s) eqn:Hhi;
      rewrite ?Nat.ltb_lt, ?Nat.ltb_ge in *;
      (split; [try done | intros [_ Hb]; specialize (Hb _ eq_refl); try lia; done]).
    split; [done | by intros ? [= <-]].
  - done.
Qed.

(** What a string field with one length validator accepts. *)
Lemma str_field_accepts f lo hi d :
  ftype f = fields.Str → validate f = [validate.Length lo hi] →
  field_errors f d = None ↔
  (required f = false ∧ d !! name f = None)
  ∨ ∃ s, d !! name f = Some (PStr s)
         ∧ (∀ n, lo = Some n → n ≤ length s)
         ∧ (∀ n, hi = Some n → length s ≤ n).
Proof.
  intros Ht Hv. unfold field_errors, deserialize, validators.
  rewrite Ht, Hv. destruct (d !! name f) as [v|].
  - destruct v; try (split; [done | by intros [[_ [=]] | (? & [=] & _)]]).
    simpl. rewrite app_nil_r.
    destruct (length_check lo hi s) eqn:Hcheck.
    + apply length_check_nil in Hcheck. split; [|done].
      intros _. right. by exists s.
    + split; [done|]. intros [[_ [=]] | (s' & [= <-] & Hb)].
      apply length_check_nil in Hb. congruence.
  - destruct (required f); (split; [try done; by left |]); try done.
    intros [[[=] _] | (? & [=] & _)].
Qed.
End Acceptance.

Lemma customer_names : name <$> load_fields customer_schema = customer_keys.
Proof. by rewrite customer_load_fields. Qed.

Lemma customer_fields_are_strings (f : field) :
  f ∈ load_fields customer_schema →
  ftype f = fields.Str ∨ ftype f = fields.Email.
Proof.
  rewrite customer_load_fields. intros Hin.
  repeat (apply elem_of_cons in Hin as [->|Hin]); auto.
  by apply elem_of_nil in Hin.
Qed.

Lemma strip_items_None (d : dict) (k : pystr) :
  strip_items d !! k = None ↔ d !! k = None.
Proof. rewrite strip_items_lookup. apply fmap_None. Qed.

Lemma text_entry_stripped (d : dict) (k : pystr) (P : pystr → Prop) :
  k ≠ py "password" →
  text_entry (strip_items d) k P ↔ text_entry d k (λ s, P (strip s)).
Proof.
  intros Hk. unfold text_entry. rewrite strip_items_lookup. split.
  - intros (s' & Hs' & HP). destruct (d !! k) as [v|]; [|done].
    destruct v; try done. simpl in Hs'.
    rewrite bool_decide_eq_true_2 in Hs' by done.
    injection Hs' as <-. by exists s.
  - intros (s & -> & HP). exists (strip s). simpl.
    by rewrite bool_decide_eq_true_2.
Qed.

Lemma text_entry_password (d : dict) (P : pystr → Prop) :
  text_entry (strip_items d) (py "password") P
  ↔ text_entry d (py "password") P.
Proof. unfold text_entry. by rewrite strip_items_password. Qed.

(** Finds an element in a list given by its elements. *)
Ltac in_list :=
  repeat (first [apply list_elem_of_here | apply list_elem_of_further]).

Section CustomerAcceptance.
Context `{Externals}.

Lemma customer_field_accepts (d : dict) :
  (∀ f, f ∈ load_fields customer_schema → field_errors f d = None) ↔
  text_entry d (py "first_name") (λ s, 1 ≤ length s ≤ 50)
  ∧ text_entry d (py "last_name") (λ s, 1 ≤ length s ≤ 50)
  ∧ text_entry d (py "email") (λ s, email_ok s = true)
  ∧ text_entry d (py "password") (λ s, 6 ≤ length s)
  ∧ (d !! py "phone" = None ∨ text_entry d (py "phone") (λ s, length s ≤ 20))
  ∧ (d !! py "address" = None
     ∨ text_entry d (py "address") (λ s, length s ≤ 200)).
Proof.
  rewrite customer_load_fields. unfold text_entry.
  pose proof (str_field_accepts first_name_field (Some 1) (Some 50) d
                eq_refl eq_refl) as Hfirst.
  pose proof (str_field_accepts last_name_field (Some 1) (Some 50) d
                eq_refl eq_refl) as Hlast.
  pose proof (email_field_accepts d) as Hemail.
  pose proof (str_field_accepts password_field (Some 6) None d
                eq_refl eq_refl) as Hpw.
  pose proof (str_field_accepts phone_field None (Some 20) d
                eq_refl eq_refl) as Hphone.
  pose proof (str_field_accepts address_field None (Some 200) d
                eq_refl eq_refl) as Haddr.
  cbn [name required first_name_field last_name_field password_field
       phone_field address_field] in *.
  split.
  - intros Hall.
    assert (field_errors first_name_field d = None) as H1
      by (apply Hall; in_list).
    assert (field_errors last_name_field d = None) as H2
      by (apply Hall; in_list).
    assert (field_errors email_field d = None) as H3
      by (apply Hall; in_list).
    assert (field_errors password_field d = None) as H4
      by (apply Hall; in_list).
    assert (field_errors phone_field d = None) as H5
      by (apply Hall; in_list).
    assert (field_errors address_field d = None) as H6
      by (apply Hall; in_list).
    apply Hfirst in H1 as [[[=] _] | (s1 & Hs1 & Ha1 & Hb1)].
    apply Hlast in H2 as [[[=] _] | (s2 & Hs2 & Ha2 & Hb2)].
    apply Hemail in H3 as (e & He & Hok).
    apply Hpw in H4 as [[[=] _] | (p & Hp & Ha4 & _)].
    split_and!.
    + exists s1. split; [done|]. split; [by apply Ha1 | by apply Hb1].
    + exists s2. split; [done|]. split; [by apply Ha2 | by apply Hb2].
    + by exists e.
    + exists p. split; [done|]. by apply Ha4.
    + apply Hphone in H5 as [[_ ?] | (s & Hs & _ & Hb)]; [by left|].
      right. exists s. split; [done|]. by apply Hb.
    + apply Haddr in H6 as [[_ ?] | (s & Hs & _ & Hb)]; [by left|].
      right. exists s. split; [done|]. by apply Hb.
  - intros ((s1 & Hs1 & Hl1) & (s2 & Hs2 & Hl2) & (e & He & Hok)
            & (p & Hp & Hlp) & Hph & Had) f Hin.
    repeat (apply elem_of_cons in Hin as [->|Hin]);
      [..|by apply elem_of_nil in Hin].
    + apply Hfirst. right. exists s1. split; [done|].
      split; intros n [= <-]; lia.
    + apply Hlast. right. exists s2. split; [done|].
      split; intros n [= <-]; lia.
    + apply Hemail. by exists e.
    + apply Hpw. right. exists p. split; [done|].
      split; [intros n [= <-]; lia | done].
    + apply Hphone. destruct Hph as [?|(s & Hs & Hl)]; [by left|].
      right. exists s. split; [done|]. split; [done | intros n [= <-]; lia].
    + apply Haddr. destruct Had as [?|(s & Hs & Hl)]; [by left|].
      right. exists s. split; [done|]. split; [done | intros n [= <-]; lia].
Qed.

Lemma validated_customer_iff (d ret : dict) :
  validated customer_schema (PDict (strip_items d)) = Ok ret ↔
  acceptable d ∧ ret = strip_items d.
Proof.
  split.
  - intros Hv.
    pose proof (validated_returns_input _ _ _ customer_load_names_NoDup
                  customer_fields_are_strings Hv) as ->.
    split; [|done].
    apply validated_Ok_iff in Hv as (Hfields & Hunknown & _);
      [|apply customer_load_names_NoDup].
    apply customer_field_accepts in Hfields
      as (H1 & H2 & H3 & H4 & H5 & H6).
    unfold acceptable.
    rewrite text_entry_stripped in H1, H2, H3 by compute_done.
    rewrite text_entry_password in H4.
    rewrite strip_items_None in H5, H6.
    rewrite text_entry_stripped in H5, H6 by compute_done.
    split_and!; try done.
    intros k Hk. rewrite <- customer_names.
    destruct (decide (k ∈ name <$> load_fields customer_schema)) as [|Hno];
      [done|].
    pose proof (Hunknown k Hno) as Hn. rewrite strip_items_None in Hn.
    rewrite Hn in Hk. by destruct Hk.
  - intros [(H1 & H2 & H3 & H4 & H5 & H6 & Hkeys) ->].
    assert (validated customer_schema (PDict (strip_items d))
            = Ok (_deserialize customer_schema (PDict (strip_items d))).1)
      as Hv.
    { apply validated_Ok_iff; [apply customer_load_names_NoDup|].
      split_and!; [| |done].
      - apply customer_field_accepts.
        rewrite !text_entry_stripped by compute_done.
        rewrite text_entry_password, !strip_items_None.
        by rewrite !text_entry_stripped by compute_done.
      - intros k Hk. apply strip_items_None.
        rewrite customer_names in Hk.
        destruct (d !! k) eqn:Hd; [|done].
        destruct Hk. apply Hkeys. by rewrite Hd. }
    rewrite Hv. f_equal.
    by apply (validated_returns_input _ _ _ customer_load_names_NoDup
                customer_fields_are_strings).
Qed.
End CustomerAcceptance.

(** ** Outcomes of load *)

Section LoadOutcomes.
Context `{Externals}.

(** What the helper can raise. *)
Lemma _hash_Raise random v e :
  _hash random v = Raise e →
  (e = AttributeError ∧ truthy v = true ∧ is_str v = false)
  ∨ (e = UnicodeEncodeError
     ∧ ∃ s, v = PStr s ∧ s ≠ [] ∧ startswith s (py "$2") = false
            ∧ encode_utf8 s = None)
  ∨ (e = ValueError
     ∧ ∃ s pw_bytes, v = PStr s ∧ s ≠ [] ∧ startswith s (py "$2") = false
                     ∧ encode_utf8 s = Some pw_bytes
                     ∧ bcrypt_refuses pw_bytes = true).
Proof.
  unfold _hash. destruct (truthy v) eqn:Htruthy; [|done]. cbn [negb].
  destruct v; try (intros [= <-]; by left).
  assert (s ≠ []) as Hne by by intros ->.
  destruct (startswith s (py "$2")) eqn:Hpre; [done|].
  destruct (encode_utf8 s) as [pw_bytes|] eqn:Henc.
  - unfold hashpw. destruct (bcrypt_refuses pw_bytes) eqn:Href.
    + intros [= <-]. right. right. split; [done|]. by exists s, pw_bytes.
    + cbn [mbind result_bind].
      by rewrite decode_utf8_ascii by apply hash_bytes_ascii.
  - intros [= <-]. right. left. split; [done|]. by exists s.
Qed.

Lemma post_load_Raise random ret e :
  post_load random ret = Raise e →
  ∃ raw, ret !! py "password" = Some raw ∧ _hash random raw = Raise e.
Proof.
  unfold post_load, hash_password.
  destruct (ret !! py "password") as [raw|]; [|done].
  destruct (truthy raw); [|done].
  destruct (_hash random raw) as [p|e'] eqn:Hh; [done|].
  intros [= <-]. by exists raw.
Qed.

Lemma load_Raise_inv s random l h e :
  (load s random l h).1 = Raise e →
  (∃ msgs, e = ValidationError msgs ∧ msgs ≠ ∅
           ∧ ((∀ d, h l ≠ PDict d)
              ∨ ∃ d, h l = PDict d
                     ∧ validated s (PDict (strip_items d))
                       = Raise (ValidationError msgs)))
  ∨ (∃ d ret, h l = PDict d
              ∧ validated s (PDict (strip_items d)) = Ok ret
              ∧ post_load random ret = Raise e).
Proof.
  destruct (h l) as [ | ? | ? | ? | ? | ? | ? | d ] eqn:Hl.
  8:{ rewrite (load_dict _ _ _ _ _ Hl). cbn [fst].
      destruct (validated_cases s (PDict (strip_items d)))
        as [[ret Hv] | (msgs & Hv & Hne)]; rewrite Hv.
      - intros Hpost. right. by exists d, ret.
      - intros [= <-]. left. exists msgs. split_and!; [done..|].
        right. by exists d. }
  all: unfold load, process_input; rewrite Hl; cbn [fst]; rewrite Hl;
    intros [= <-]; left; eexists; split_and!;
    [done | apply insert_non_empty | by left].
Qed.
End LoadOutcomes.

(** ** Further properties of load *)

Section LoadExtras.
Context `{Externals}.

(** X1: a body that is not a mapping is left alone by [process_input]
    (the [isinstance(data, dict)] guard), and [load] then fails with the
    schema-level "Invalid input type." error, the store being as it was. *)
Theorem load_rejects_non_mapping s random l h :
  (∀ d, h l ≠ PDict d) →
  process_input l h = (l, h)
  ∧ load s random l h
    = (Raise (ValidationError {[ py "_schema" := [InvalidInputType] ]}), h).
Proof.
  intros Hno. unfold load, process_input.
  destruct (h l) as [ | ? | ? | ? | ? | ? | ? | d ] eqn:Hl;
    [..|by destruct (Hno d)]; by rewrite Hl.
Qed.

(** X2: normalisation is idempotent. Loading the same object a second time
    leaves every object of the store as the first call left it, and the
    second call ends as a first call with the same salt would have. *)
Theorem load_again_changes_nothing s random random' l h d :
  h l = PDict d →
  (∀ l', (load s random' l (load s random l h).2).2 l'
         = (load s random l h).2 l')
  ∧ (load s random' l (load s random l h).2).1 = (load s random' l h).1.
Proof.
  intros Hl. rewrite (load_dict s random _ _ _ Hl). cbn [snd].
  assert ((<[l := PDict (strip_items d)]> h) l = PDict (strip_items d)) as Hl'
    by apply fn_lookup_insert.
  rewrite (load_dict s random' _ _ _ Hl'), (load_dict s random' _ _ _ Hl).
  cbn [fst snd]. rewrite strip_items_idempotent. split; [|done].
  intros l'. destruct (decide (l = l')) as [->|Hne].
  - by rewrite !fn_lookup_insert.
  - by rewrite !fn_lookup_insert_ne.
Qed.

(** X3: the hook adds no key and removes none, keeps a string a string and
    anything else what it was, and never makes a string longer. *)
Theorem process_input_preserves_keys l h d :
  h l = PDict d →
  ∃ d', (process_input l h).2 l = PDict d'
        ∧ dom d' = dom d
        ∧ (∀ k v, d !! k = Some v →
             ∃ v', d' !! k = Some v' ∧ is_str v' = is_str v
                   ∧ (is_str v = false → v' = v))
        ∧ (∀ k s s', d !! k = Some (PStr s) → d' !! k = Some (PStr s') →
             length s' ≤ length s).
Proof.
  intros Hl. exists (strip_items d).
  rewrite (process_input_dict _ _ _ Hl). cbn [snd]. rewrite fn_lookup_insert.
  split_and!; [done | apply strip_items_dom | |].
  - intros k v Hk. exists (stripped k v). rewrite strip_items_lookup, Hk.
    split_and!; [done | |]; destruct v; try done; simpl; by case_bool_decide.
  - intros k s s' Hk. rewrite strip_items_lookup, Hk. simpl.
    case_bool_decide; intros [= <-]; [apply strip_length | done].
Qed.

(** X4: a first or last name made of white space only (the empty string
    included) is stripped to nothing and refused for its length. *)
Theorem load_rejects_blank_name random l h d k s :
  h l = PDict d →
  k ∈ [py "first_name"; py "last_name"] →
  d !! k = Some (PStr s) → whitespace s →
  ∃ msgs, (load customer_schema random l h).1 = Raise (ValidationError msgs)
          ∧ msgs !! k = Some [LengthBetween 1 50].
Proof.
  intros Hl Hk Hd Hs.
  assert (k ≠ py "password") as Hne.
  { intros ->. repeat (apply elem_of_cons in Hk as [Hk|Hk]); try done.
    by apply elem_of_nil in Hk. }
  destruct (offends_field_errors (strip_items d) k [LengthBetween 1 50])
    as (f & Hf & <- & Herr).
  { apply (name_length _ k []); [done| |simpl; lia].
    rewrite strip_items_lookup, Hd. simpl.
    by rewrite bool_decide_eq_true_2, strip_whitespace. }
  by apply (field_errors_reported _ _ _ d).
Qed.

Lemma post_load_not_validation random ret msgs :
  post_load random ret ≠ Raise (ValidationError msgs).
Proof.
  intros (raw & _ & Hh)%post_load_Raise.
  apply _hash_Raise in Hh as [[[=] _] | [[[=] _] | [[=] _]]].
Qed.

(** X5: the bodies that pass validation are exactly the acceptable ones,
    and the validated data is then the normalised body itself; so [load]
    ends in a [ValidationError] exactly when the body is not acceptable. *)
Theorem load_accepts_exactly_acceptable random l h d :
  h l = PDict d →
  (∀ ret, validated customer_schema (PDict (strip_items d)) = Ok ret
          ↔ acceptable d ∧ ret = strip_items d)
  ∧ ((∃ msgs, (load customer_schema random l h).1
              = Raise (ValidationError msgs))
     ↔ ¬ acceptable d).
Proof.
  intros Hl. split; [intros ret; apply validated_customer_iff|].
  rewrite (load_dict _ _ _ _ _ Hl). cbn [fst].
  destruct (validated_cases customer_schema (PDict (strip_items d)))
    as [[ret Hv] | (msgs & Hv & Hne)]; rewrite Hv.
  - apply validated_customer_iff in Hv as [Hacc ->]. split; [|done].
    intros [msgs Hmsgs]. by apply post_load_not_validation in Hmsgs.
  - split; [|by eexists]. intros _ Hacc.
    assert (validated customer_schema (PDict (strip_items d))
            = Ok (strip_items d)) as Hok
      by by apply validated_customer_iff.
    congruence.
Qed.

(** X6: [load] ends in a record, in a [ValidationError], or, for an
    acceptable body whose password does not begin with [$2], in the
    [UnicodeEncodeError] of [encode] when the password holds a code point
    the UTF-8 codec refuses, or in the [ValueError] of [bcrypt.hashpw] when
    bcrypt refuses its bytes (from 5.0 on, more than 72 of them); it
    raises nothing else. *)
Theorem load_raises_nothing_else random l h e :
  (load customer_schema random l h).1 = Raise e →
  (∃ msgs, e = ValidationError msgs ∧ msgs ≠ ∅)
  ∨ (∃ d raw, h l = PDict d ∧ acceptable d
              ∧ d !! py "password" = Some (PStr raw)
              ∧ startswith raw (py "$2") = false
              ∧ ((e = UnicodeEncodeError ∧ encode_utf8 raw = None)
                 ∨ (e = ValueError
                    ∧ ∃ pw_bytes, encode_utf8 raw = Some pw_bytes
                                  ∧ bcrypt_refuses pw_bytes = true))).
Proof.
  intros [(msgs & -> & Hne & _) | (d & ret & Hl & Hv & Hpost)]%load_Raise_inv.
  { left. by exists msgs. }
  right. apply validated_customer_iff in Hv as [Hacc ->].
  apply post_load_Raise in Hpost as (raw & Hraw & Hh).
  rewrite strip_items_password in Hraw.
  pose proof Hacc as (_ & _ & _ & (p & Hp & Hlen) & _).
  rewrite Hp in Hraw. injection Hraw as <-.
  exists d, p.
  apply _hash_Raise in Hh
    as [(_ & _ & [=])
       | [(-> & s & [= <-] & _ & Hpre & Henc)
         | (-> & s & pw_bytes & [= <-] & _ & Hpre & Henc & Href)]].
  - split_and!; [done..|]. by left.
  - split_and!; [done..|]. right. split; [done|]. by exists pw_bytes.
Qed.
End LoadExtras.

(** ** Further properties of the hashing hook *)

Section HashExtras.
Context `{Externals}.

Lemma load_Ok_password random l h d raw c :
  h l = PDict d → d !! py "password" = Some (PStr raw) →
  (load customer_schema random l h).1 = Ok c →
  raw ≠ [] ∧ 6 ≤ length raw
  ∧ ∃ p, _hash random (PStr raw) = Ok p
         ∧ c = new_Customer (<[py "password" := p]> (strip_items d)).
Proof.
  intros Hl Hpw (d0 & ret & Hl0 & Hv & Hpost)%load_Ok_inv.
  rewrite Hl in Hl0. injection Hl0 as <-.
  destruct (validated_password d ret raw Hpw Hv) as [Hret Hlen].
  assert (raw ≠ []) as Hne by (intros ->; simpl in Hlen; lia).
  apply validated_customer_iff in Hv as [_ ->].
  rewrite (post_load_password _ _ _ Hret Hne) in Hpost.
  destruct (_hash random (PStr raw)) as [p|e]; [|done].
  injection Hpost as <-. split_and!; [done..|]. by exists p.
Qed.

(** X7: the stored hash is the salt [gensalt] drew followed by the encoded
    digest of the UTF-8 bytes of the raw password, white space included; it
    is plain ASCII, its first 29 characters are the salt, and with a
    23-byte digest it is 60 characters long. *)
Theorem load_stores_salted_hash random l h d raw c :
  h l = PDict d →
  d !! py "password" = Some (PStr raw) →
  startswith raw (py "$2") = false →
  (load customer_schema random l h).1 = Ok c →
  ∃ pw_bytes hash,
    encode_utf8 raw = Some pw_bytes
    ∧ password c = PStr hash
    ∧ hash = gensalt random
             ++ encode_base64 (bcrypt_core pw_bytes (gensalt random))
    ∧ ascii_only hash
    ∧ (length random = 16 → take 29 hash = gensalt random)
    ∧ (length random = 16 →
       length (bcrypt_core pw_bytes (gensalt random)) = 23 →
       length hash = 60).
Proof.
  intros Hl Hpw Hpre Hload.
  destruct (load_Ok_password _ _ _ _ _ _ Hl Hpw Hload)
    as (Hne & _ & p & Hp & ->).
  destruct (_hash_fresh_Ok _ _ _ Hne Hpre Hp) as (pw_bytes & Henc & _ & ->).
  exists pw_bytes, (hash_bytes pw_bytes (gensalt random)).
  split_and!; [done | apply password_new_Customer | done
               | apply hash_bytes_ascii | |].
  - intros Hlen. unfold hash_bytes.
    rewrite <- (gensalt_length random Hlen). apply take_app_length.
  - intros Hlen Hdigest. unfold hash_bytes.
    rewrite length_app, gensalt_length, encode_base64_length, Hdigest by done.
    done.
Qed.

(** X8: [hash_password] gives back what it was given, a mapping for a
    mapping and an instance for an instance, with nothing but the password
    changed; when the password is absent or empty it changes nothing at
    all. *)
Theorem hash_password_changes_only_password random data data' :
  hash_password random data = Ok data' →
  match data, data' with
  | Mapping d, Mapping d' =>
      (∀ k, k ≠ py "password" → d' !! k = d !! k)
      ∧ (is_Some (d' !! py "password") ↔ is_Some (d !! py "password"))
      ∧ (truthy (default PNone (d !! py "password")) = false → d' = d)
  | Instance c, Instance c' =>
      id c' = id c ∧ first_name c' = first_name c
      ∧ last_name c' = last_name c ∧ email c' = email c
      ∧ phone c' = phone c ∧ address c' = address c
      ∧ created_at c' = created_at c
      ∧ service_tickets c' = service_tickets c
      ∧ (truthy (password c) = false → c' = c)
  | _, _ => False
  end.
Proof.
  destruct data as [d|c]; simpl.
  - destruct (d !! py "password") as [raw|] eqn:Hpw; simpl.
    + destruct (truthy raw) eqn:Htruthy.
      * destruct (_hash random raw) as [p|e]; [|done]. simpl.
        intros [= <-]. split_and!.
        -- intros k Hk. by rewrite lookup_insert_ne.
        -- rewrite lookup_insert_eq. split; eauto.
        -- congruence.
      * intros [= <-]. split_and!; rewrite ?Hpw; done.
    + intros [= <-]. split_and!; rewrite ?Hpw; done.
  - destruct (truthy (password c)) eqn:Htruthy.
    + destruct (_hash random (password c)) as [p|e]; [|done]. simpl.
      by intros [= <-].
    + by intros [= <-].
Qed.

Lemma new_Customer_ext (m1 m2 : dict) :
  (∀ k, k ∈ customer_keys → m1 !! k = m2 !! k) →
  new_Customer m1 = new_Customer m2.
Proof.
  intros Hk. unfold new_Customer.
  by rewrite !Hk by (unfold customer_keys; in_list).
Qed.

Lemma strip_items_insert_password (d : dict) (p : pyval) :
  strip_items (<[py "password" := p]> d)
  = <[py "password" := p]> (strip_items d).
Proof.
  apply map_eq. intros k. rewrite strip_items_lookup.
  destruct (decide (k = py "password")) as [->|Hk].
  - rewrite !lookup_insert_eq. by destruct p.
  - by rewrite !lookup_insert_ne, strip_items_lookup.
Qed.

Lemma acceptable_insert_password (d : dict) (s : pystr) :
  acceptable d → 6 ≤ length s →
  acceptable (<[py "password" := PStr s]> d).
Proof.
  intros (H1 & H2 & H3 & (p & Hp & _) & H5 & H6 & Hkeys) Hlen.
  unfold acceptable, text_entry in *.
  rewrite (lookup_insert_ne _ _ (py "first_name")) by compute_done.
  rewrite (lookup_insert_ne _ _ (py "last_name")) by compute_done.
  rewrite (lookup_insert_ne _ _ (py "email")) by compute_done.
  rewrite !(lookup_insert_ne _ _ (py "phone")) by compute_done.
  rewrite !(lookup_insert_ne _ _ (py "address")) by compute_done.
  rewrite lookup_insert_eq.
  split_and!; try done.
  - by exists s.
  - intros k. destruct (decide (k = py "password")) as [->|Hk].
    + intros _. unfold customer_keys. in_list.
    + rewrite lookup_insert_ne by done. apply Hkeys.
Qed.

(** X9: loading a body again with the hash of an earlier load as its
    password returns the very same record: the hash is stored as it is,
    whatever salt the second call draws. *)
Theorem load_keeps_hash_on_reload random1 random2 l h d c1 l' h' :
  h l = PDict d →
  (load customer_schema random1 l h).1 = Ok c1 →
  h' l' = PDict (<[py "password" := password c1]> d) →
  (load customer_schema random2 l' h').1 = Ok c1.
Proof.
  intros Hl Hload Hl'.
  pose proof Hload as (d0 & ret & Hl0 & Hv & _)%load_Ok_inv.
  rewrite Hl in Hl0. injection Hl0 as <-.
  apply validated_customer_iff in Hv as [Hacc _].
  pose proof Hacc as (_ & _ & _ & (raw & Hraw & Hlen) & _).
  destruct (load_Ok_password _ _ _ _ _ _ Hl Hraw Hload)
    as (Hne & _ & p & Hp & Hc1).
  assert (password c1 = p) as Hpc by (rewrite Hc1; apply password_new_Customer).
  assert (∃ text, p = PStr text ∧ 6 ≤ length text
                  ∧ startswith text (py "$2") = true) as (text & -> & Htl & Hmark).
  { destruct (startswith raw (py "$2")) eqn:Hpre.
    - rewrite (_hash_guard _ _ Hpre) in Hp. injection Hp as <-. by eexists.
    - destruct (_hash_fresh_Ok _ _ _ Hne Hpre Hp) as (pw_bytes & _ & _ & ->).
      eexists. split_and!; [done| |].
      + unfold hash_bytes, gensalt. rewrite !length_app. simpl. lia.
      + apply startswith_marker_short, hash_bytes_marker. }
  rewrite Hpc in Hl'. rewrite (load_dict _ _ _ _ _ Hl'). cbn [fst].
  assert (validated customer_schema
            (PDict (strip_items (<[py "password" := PStr text]> d)))
          = Ok (strip_items (<[py "password" := PStr text]> d))) as ->.
  { apply validated_customer_iff. split; [|done].
    by apply acceptable_insert_password. }
  cbn [mbind result_bind].
  assert (text ≠ []) as Htne by (intros ->; simpl in Htl; lia).
  rewrite (post_load_password _ _ text); [| |done].
  2:{ by rewrite strip_items_insert_password, lookup_insert_eq. }
  rewrite (_hash_guard _ _ Hmark). cbn [mbind result_bind].
  rewrite Hc1. f_equal. apply new_Customer_ext. intros k Hk.
  rewrite strip_items_insert_password.
  destruct (decide (k = py "password")) as [->|Hne'].
  - by rewrite !lookup_insert_eq.
  - by rewrite !lookup_insert_ne.
Qed.
End HashExtras.

(** ** Further properties of validation *)

Lemma rsplit1_Some (sep : N) (s before after : pystr) :
  rsplit1 sep s = Some (before, after) →
  s = before ++ sep :: after ∧ sep ∉ after.
Proof.
  revert before. induction s as [|c s IH]; intros before; [done|]. simpl.
  destruct (rsplit1 sep s) as [[b a]|] eqn:Hs.
  - intros [= <- <-]. destruct (IH b eq_refl) as [-> Hno]. done.
  - destruct (c =? sep)%N eqn:Hc; [|done]. intros [= <- <-].
    apply N.eqb_eq in Hc as ->. split; [done|].
    clear IH. revert Hs. induction s as [|c' s IH]; intros Hs.
    + apply not_elem_of_nil.
    + simpl in Hs. destruct (rsplit1 sep s) as [[??]|]; [done|].
      destruct (c' =? sep)%N eqn:Hc'; [done|]. apply N.eqb_neq in Hc'.
      apply not_elem_of_cons. split; [done | by apply IH].
Qed.

Lemma rsplit1_None (sep : N) (s : pystr) : sep ∉ s → rsplit1 sep s = None.
Proof.
  induction s as [|c s IH]; [done|].
  intros [Hc Hs]%not_elem_of_cons. simpl. rewrite (IH Hs).
  destruct (c =? sep)%N eqn:E; [|done]. apply N.eqb_eq in E. congruence.
Qed.

Section ValidationExtras.
Context `{Externals}.

Lemma email_ok_without_at (e : pystr) : 64%N ∉ e → email_ok e = false.
Proof.
  intros Hno. unfold email_ok. destruct e; [done|]. by rewrite rsplit1_None.
Qed.

Lemma email_ok_shape (e : pystr) :
  email_ok e = true →
  ∃ user domain, e = user ++ 64%N :: domain ∧ (64%N ∉ domain)
                 ∧ user ≠ [] ∧ USER_REGEX user = true.
Proof.
  unfold email_ok. destruct e as [|c e]; [done|].
  destruct (rsplit1 64 (c :: e)) as [[user domain]|] eqn:Hsplit; [|done].
  intros [Huser _]%andb_true_iff.
  apply rsplit1_Some in Hsplit as [-> Hno].
  exists user, domain. split_and!; try done. by intros ->.
Qed.

Lemma length_check_cases lo hi (s : pystr) errors :
  length_check lo hi s = errors → errors ≠ [] →
  match lo, hi with
  | Some a, Some b => errors = [LengthBetween a b] ∧ ¬ (a ≤ length s ≤ b)
  | Some a, None => errors = [TooShort a] ∧ length s < a
  | None, Some b => errors = [TooLong b] ∧ b < length s
  | None, None => False
  end.
Proof.
  unfold length_check. destruct lo as [a|], hi as [b|]; intros <- Hne;
    [destruct (length s <? a) eqn:Ha; destruct (b <? length s) eqn:Hb
    |destruct (length s <? a) eqn:Ha|destruct (b <? length s) eqn:Hb|];
    simpl in *; rewrite ?Nat.ltb_lt, ?Nat.ltb_ge in *;
    try done; (split; [done|lia]).
Qed.

(** How a string field with one length validator can fail. *)
Lemma str_field_errors f lo hi d errors :
  ftype f = fields.Str → validate f = [validate.Length lo hi] →
  field_errors f d = Some errors →
  (required f = true ∧ d !! name f = None ∧ errors = [Required])
  ∨ (d !! name f = Some PNone ∧ errors = [Null])
  ∨ (∃ v, d !! name f = Some v ∧ v ≠ PNone ∧ is_str v = false
          ∧ errors = [InvalidString])
  ∨ (∃ s, d !! name f = Some (PStr s)
          ∧ length_check lo hi s = errors ∧ errors ≠ []).
Proof.
  intros Ht Hv. unfold field_errors, deserialize, validators.
  rewrite Ht, Hv. destruct (d !! name f) as [v|].
  - destruct v; try (intros [= <-]; right; right; left; by eexists).
    + intros [= <-]. by right; left.
    + simpl. rewrite app_nil_r.
      destruct (length_check lo hi s) eqn:Hcheck; [done|].
      intros [= <-]. do 3 right. by exists s.
  - destruct (required f); [|done]. intros [= <-]. by left.
Qed.

Lemma email_field_errors d errors :
  field_errors email_field d = Some errors →
  (d !! py "email" = None ∧ errors = [Required])
  ∨ (d !! py "email" = Some PNone ∧ errors = [Null])
  ∨ (∃ v, d !! py "email" = Some v ∧ v ≠ PNone ∧ is_str v = false
          ∧ errors = [InvalidEmail])
  ∨ (∃ s, d !! py "email" = Some (PStr s) ∧ email_ok s = false
          ∧ errors = [InvalidEmail]).
Proof.
  unfold_field. destruct (d !! py "email") as [v|].
  - destruct v; try (intros [= <-]; right; right; left; by eexists).
    + intros [= <-]. by right; left.
    + simpl. destruct (email_ok s) eqn:Hok; [done|].
      intros [= <-]. do 3 right. by exists s.
  - intros [= <-]. by left.
Qed.

Lemma strip_items_PNone (d : dict) (k : pystr) :
  strip_items d !! k = Some PNone ↔ d !! k = Some PNone.
Proof.
  rewrite strip_items_lookup. destruct (d !! k) as [v|]; [|done].
  destruct v; simpl; try done. by case_bool_decide.
Qed.

(** Every error of a load field is an offence against the data model or an
    explicit null. *)
Lemma customer_field_errors d f errors :
  f ∈ load_fields customer_schema →
  field_errors f d = Some errors →
  offends d (name f) errors
  ∨ (d !! name f = Some PNone ∧ errors = [Null]).
Proof.
  rewrite customer_load_fields. intros Hin Herr.
  repeat (apply elem_of_cons in Hin as [->|Hin]);
    [..|by apply elem_of_nil in Hin].
  - apply (str_field_errors _ (Some 1) (Some 50)) in Herr
      as [(_ & Hd & ->) | [[Hd ->] | [(v & Hd & Hv & Hs & ->)
          | (s & Hd & Hc & Hne)]]]; [|by right| |..|done|done]; left.
    + apply required_omitted; [in_list | done].
    + eapply not_a_string; [in_list | done..].
    + apply length_check_cases in Hc as [-> Hlen]; [|done].
      apply (name_length _ _ s); [in_list | done..].
  - apply (str_field_errors _ (Some 1) (Some 50)) in Herr
      as [(_ & Hd & ->) | [[Hd ->] | [(v & Hd & Hv & Hs & ->)
          | (s & Hd & Hc & Hne)]]]; [|by right| |..|done|done]; left.
    + apply required_omitted; [in_list | done].
    + eapply not_a_string; [in_list | done..].
    + apply length_check_cases in Hc as [-> Hlen]; [|done].
      apply (name_length _ _ s); [in_list | done..].
  - apply email_field_errors in Herr
      as [[Hd ->] | [[Hd ->] | [(v & Hd & Hv & Hs & ->)
          | (s & Hd & Hok & ->)]]]; [|by right|..]; left.
    + apply required_omitted; [in_list | done].
    + by apply (email_not_a_string _ v).
    + by apply (email_syntax _ s).
  - apply (str_field_errors _ (Some 6) None) in Herr
      as [(_ & Hd & ->) | [[Hd ->] | [(v & Hd & Hv & Hs & ->)
          | (s & Hd & Hc & Hne)]]]; [|by right| |..|done|done]; left.
    + apply required_omitted; [in_list | done].
    + eapply not_a_string; [in_list | done..].
    + apply length_check_cases in Hc as [-> Hlen]; [|done].
      by apply (password_short _ s).
  - apply (str_field_errors _ None (Some 20)) in Herr
      as [([=] & _) | [[Hd ->] | [(v & Hd & Hv & Hs & ->)
          | (s & Hd & Hc & Hne)]]]; [by right| |..|done|done]; left.
    + eapply not_a_string; [in_list | done..].
    + apply length_check_cases in Hc as [-> Hlen]; [|done].
      by apply (phone_long _ s).
  - apply (str_field_errors _ None (Some 200)) in Herr
      as [([=] & _) | [[Hd ->] | [(v & Hd & Hv & Hs & ->)
          | (s & Hd & Hc & Hne)]]]; [by right| |..|done|done]; left.
    + eapply not_a_string; [in_list | done..].
    + apply length_check_cases in Hc as [-> Hlen]; [|done].
      by apply (address_long _ s).
Qed.

(** X10: the messages of the [ValidationError] name nothing but what is
    wrong: every key they hold is a field whose normalised entry offends
    the data model, a field that was sent as null, or a key the schema does
    not load. *)
Theorem load_errors_name_only_offences random l h d msgs :
  h l = PDict d →
  (load customer_schema random l h).1 = Raise (ValidationError msgs) →
  ∀ k errors, msgs !! k = Some errors →
    offends (strip_items d) k errors
    ∨ (k ∈ customer_keys ∧ d !! k = Some PNone ∧ errors = [Null])
    ∨ ((k ∉ customer_keys) ∧ is_Some (d !! k) ∧ errors = [UnknownField]).
Proof.
  intros Hl Hload k errors Hk.
  rewrite (load_dict _ _ _ _ _ Hl) in Hload. cbn [fst] in Hload.
  destruct (validated_cases customer_schema (PDict (strip_items d)))
    as [[ret Hv] | (msgs' & Hv & _)]; rewrite Hv in Hload.
  { by apply post_load_not_validation in Hload. }
  cbn [mbind result_bind] in Hload.
  assert (msgs' = msgs) as -> by congruence.
  apply validated_Raise in Hv as [_ Heq].
  assert (msgs = (_deserialize customer_schema (PDict (strip_items d))).2)
    as -> by congruence.
  destruct (decide (k ∈ name <$> load_fields customer_schema)) as [Hin|Hout].
  - apply list_elem_of_fmap in Hin as (f & -> & Hf).
    rewrite (errors_at_field _ _ f customer_load_names_NoDup Hf) in Hk.
    destruct (customer_field_errors _ _ _ Hf Hk) as [?|[Hnull ->]]; [by left|].
    right; left. split_and!; [|by apply strip_items_PNone|done].
    rewrite <- customer_names. by apply list_elem_of_fmap_2.
  - rewrite (errors_at_unknown _ _ k Hout), strip_items_lookup in Hk.
    right; right. rewrite <- customer_names.
    destruct (d !! k); [|done]. injection Hk as <-. by split_and!.
Qed.

(** X11: a field that is sent as null is refused, the optional [phone] and
    [address] too, which may be left out but not be null. *)
Theorem load_rejects_null random l h d k :
  h l = PDict d → k ∈ customer_keys → d !! k = Some PNone →
  ∃ msgs, (load customer_schema random l h).1 = Raise (ValidationError msgs)
          ∧ msgs !! k = Some [Null].
Proof.
  intros Hl Hk Hd. rewrite <- customer_names in Hk.
  apply list_elem_of_fmap in Hk as (f & -> & Hf).
  apply (field_errors_reported _ _ _ d); [done..|].
  unfold field_errors, deserialize.
  by rewrite (proj2 (strip_items_PNone d (name f)) Hd).
Qed.

(** X12: a key the schema does not load is refused as unknown; the
    output-only [id], [created_at] and [service_tickets] are such keys, so
    a client cannot set them. *)
Theorem load_rejects_unknown_keys random l h d k :
  h l = PDict d →
  (k ∉ customer_keys → is_Some (d !! k) →
   ∃ msgs, (load customer_schema random l h).1 = Raise (ValidationError msgs)
           ∧ msgs !! k = Some [UnknownField])
  ∧ Forall (λ k, k ∉ customer_keys)
           [py "id"; py "created_at"; py "service_tickets"].
Proof.
  intros Hl. split; [|compute_done].
  intros Hk [v Hv]. rewrite <- customer_names in Hk.
  destruct (validated_reports_unknown customer_schema (strip_items d) k
              (stripped k v) Hk) as (msgs & Hmsgs & Hat).
  { by rewrite strip_items_lookup, Hv. }
  exists msgs. split; [|done]. by apply (load_raises _ _ _ _ d).
Qed.

(** X13: an email is accepted only if it holds an [@] with a user part
    before the last one; a body whose stripped email has no [@] is
    refused. *)
Theorem load_rejects_email_without_at random l h d e :
  h l = PDict d → d !! py "email" = Some (PStr e) →
  (email_ok (strip e) = true →
   ∃ user domain, strip e = user ++ 64%N :: domain ∧ (64%N ∉ domain)
                  ∧ user ≠ [])
  ∧ (64%N ∉ strip e →
     ∃ msgs, (load customer_schema random l h).1 = Raise (ValidationError msgs)
             ∧ msgs !! py "email" = Some [InvalidEmail]).
Proof.
  intros Hl Hd. split.
  - intros (user & domain & ? & ? & ? & _)%email_ok_shape.
    by exists user, domain.
  - intros Hno.
    destruct (offends_field_errors (strip_items d) (py "email") [InvalidEmail])
      as (f & Hf & <- & Herr).
    { apply (email_syntax _ (strip e)); [|by apply email_ok_without_at].
      by rewrite strip_items_lookup, Hd. }
    by apply (field_errors_reported _ _ _ d).
Qed.
End ValidationExtras.

(** ** The simple schema as a loader, and the errors of login *)

Lemma customer_simple_load_fields :
  load_fields customer_simple_schema
  = [first_name_field; last_name_field; email_field; phone_field;
     address_field].
Proof. by vm_compute. Qed.

Lemma customer_simple_load_names_NoDup :
  NoDup (name <$> load_fields customer_simple_schema).
Proof. rewrite customer_simple_load_fields. compute_done. Qed.

Lemma password_not_simple_load :
  py "password" ∉ name <$> load_fields customer_simple_schema.
Proof. rewrite customer_simple_load_fields. compute_done. Qed.

Section SchemaExtras.
Context `{Externals}.

(** X14: [customer_simple_schema] excludes [password], so as a loader it
    refuses a body that holds one as an unknown key; a body it accepts has
    no password, the record it returns has none either, and no salt is
    drawn for it. *)
Theorem simple_schema_loads_no_password random l h d :
  h l = PDict d →
  (∀ v, d !! py "password" = Some v →
     ∃ msgs, (load customer_simple_schema random l h).1
             = Raise (ValidationError msgs)
             ∧ msgs !! py "password" = Some [UnknownField])
  ∧ (∀ c, (load customer_simple_schema random l h).1 = Ok c →
       d !! py "password" = None ∧ password c = PNone
       ∧ ∀ random', (load customer_simple_schema random' l h).1 = Ok c).
Proof.
  intros Hl.
  assert (∀ v, d !! py "password" = Some v →
     ∃ msgs, (load customer_simple_schema random l h).1
             = Raise (ValidationError msgs)
             ∧ msgs !! py "password" = Some [UnknownField]) as Hrefuse.
  { intros v Hv.
    destruct (validated_reports_unknown customer_simple_schema (strip_items d)
                (py "password") v password_not_simple_load)
      as (msgs & Hmsgs & Hat).
    { by rewrite strip_items_password. }
    exists msgs. split; [|done]. by apply (load_raises _ _ _ _ d). }
  split; [done|]. intros c Hc.
  assert (d !! py "password" = None) as Hnone.
  { destruct (d !! py "password") as [v|] eqn:Hv; [|done].
    destruct (Hrefuse v eq_refl) as (msgs & Hmsgs & _). congruence. }
  rewrite (load_dict _ _ _ _ _ Hl) in Hc. cbn [fst] in Hc.
  destruct (validated customer_simple_schema (PDict (strip_items d)))
    as [ret|e] eqn:Hv; [|done].
  cbn [mbind result_bind] in Hc.
  assert (ret !! py "password" = None) as Hret.
  { apply validated_Ok in Hv as [_ ->].
    apply ret_at_other, password_not_simple_load. }
  assert (∀ r, post_load r ret = Ok (new_Customer ret)) as Hpost.
  { intros r. unfold post_load, hash_password. by rewrite Hret. }
  rewrite Hpost in Hc. injection Hc as <-.
  split_and!; [done| |].
  - unfold new_Customer. cbn [password]. by rewrite Hret.
  - intros random'. rewrite (load_dict _ _ _ _ _ Hl). cbn [fst].
    rewrite Hv. cbn [mbind result_bind]. apply Hpost.
Qed.

Lemma login_raises l h d f errors :
  h l = PDict d → f ∈ load_fields login_schema →
  field_errors f d = Some errors →
  ∃ msgs, (login_load login_schema l h).1 = Raise (ValidationError msgs)
          ∧ msgs !! name f = Some errors.
Proof.
  intros Hl Hf Herr. unfold login_load. cbn [fst]. rewrite Hl.
  by apply validated_reports; [apply login_load_names_NoDup|..].
Qed.

(** X15: [LoginSchema] names what it refuses: a missing [email] or
    [password], a null, a value that is no string (for which the email
    field gives its own message, as for bad syntax), an email of bad syntax
    (judged as sent, nothing is stripped), a password under six characters,
    and any other key. *)
Theorem login_reports_offending_fields l h d :
  h l = PDict d →
  (∀ k, k ∈ [py "email"; py "password"] → d !! k = None →
        login_refuses l h k [Required])
  ∧ (∀ k, k ∈ [py "email"; py "password"] → d !! k = Some PNone →
          login_refuses l h k [Null])
  ∧ (∀ v, d !! py "email" = Some v → v ≠ PNone → is_str v = false →
          login_refuses l h (py "email") [InvalidEmail])
  ∧ (∀ v, d !! py "password" = Some v → v ≠ PNone → is_str v = false →
          login_refuses l h (py "password") [InvalidString])
  ∧ (∀ e, d !! py "email" = Some (PStr e) → email_ok e = false →
          login_refuses l h (py "email") [InvalidEmail])
  ∧ (∀ p, d !! py "password" = Some (PStr p) → length p < 6 →
          login_refuses l h (py "password") [TooShort 6])
  ∧ (∀ k, k ∉ [py "email"; py "password"] → is_Some (d !! k) →
          login_refuses l h k [UnknownField]).
Proof.
  intros Hl. unfold login_refuses.
  assert (∀ k, k ∈ [py "email"; py "password"] →
            ∃ f, f ∈ load_fields login_schema ∧ name f = k
                 ∧ (ftype f = fields.Str ∨ ftype f = fields.Email)
                 ∧ required f = true) as Hfield.
  { intros k Hk. rewrite login_load_fields.
    repeat (apply elem_of_cons in Hk as [->|Hk]);
      [exists email_field | exists login_password_field
       | by apply elem_of_nil in Hk];
      (split_and!; [in_list | done | auto | done]). }
  split_and!.
  - intros k (f & Hf & <- & _ & Hreq)%Hfield Hd.
    apply (login_raises _ _ d); [done..|].
    unfold field_errors, deserialize. by rewrite Hd, Hreq.
  - intros k (f & Hf & <- & _)%Hfield Hd.
    apply (login_raises _ _ d); [done..|].
    unfold field_errors, deserialize. by rewrite Hd.
  - intros v Hd Hv Hs.
    apply (login_raises _ _ d _ _ Hl login_email_in).
    unfold_field. rewrite Hd. by destruct v.
  - intros v Hd Hv Hs.
    apply (login_raises _ _ d _ _ Hl login_password_in).
    unfold_field. rewrite Hd. by destruct v.
  - intros e Hd Hok.
    apply (login_raises _ _ d _ _ Hl login_email_in).
    unfold_field. rewrite Hd. simpl. by rewrite Hok.
  - intros p Hd Hlen.
    apply (login_raises _ _ d _ _ Hl login_password_in).
    unfold field_errors. change (name login_password_field) with (py "password").
    rewrite Hd, deserialize_min6 by done.
    apply Nat.ltb_lt in Hlen. by rewrite Hlen.
  - intros k Hk [v Hv]. unfold login_load. cbn [fst]. rewrite Hl.
    apply (validated_reports_unknown _ _ _ v); [|done].
    by rewrite login_names.
Qed.
End SchemaExtras.

(** ** More on dump *)

Lemma customer_simple_dump_names_NoDup :
  NoDup (name <$> dump_fields customer_simple_schema).
Proof. rewrite customer_simple_dump_fields. compute_done. Qed.

Section DumpExtras.
Context `{Externals}.

Lemma dump_simple_of_full (obj : Customer) (out : dict) :
  dump customer_schema obj = Ok out →
  dump customer_simple_schema obj = Ok (delete (py "service_tickets") out).
Proof.
  intros Hout. unfold dump. rewrite customer_simple_dump_filter.
  rewrite <- (delete_empty (py "service_tickets")) at 1.
  by apply foldl_dump_field_delete.
Qed.

Lemma dump_no_password (exclude : list pystr) (obj : Customer) (out : dict) :
  dump (CustomerSchema exclude) obj = Ok out → out !! py "password" = None.
Proof.
  intros Hout.
  rewrite (foldl_dump_field_other _ _ _ _ (py "password") Hout); [done|].
  apply password_not_dumped.
Qed.

Lemma dump_well_formed (obj : Customer) :
  well_formed obj → ∃ out, dump customer_schema obj = Ok out.
Proof.
  intros Hwf. apply foldl_dump_field_total.
  intros f Hf. by apply well_formed_serialize.
Qed.

Lemma serialize_value_text (t : fields.field_type) (v : pyval) :
  t = fields.Str ∨ t = fields.Email → none_or is_str v →
  serialize_value t v = Ok v.
Proof. intros [-> | ->]; by destruct v. Qed.

Lemma serialize_value_None (t : fields.field_type) : serialize_value t PNone = Ok PNone.
Proof. done. Qed.

(** The output holds a text attribute as the record has it. *)
Lemma dump_text_at (s : Schema) (obj : Customer) (out : dict) (f : field)
    (v : pyval) :
  NoDup (name <$> dump_fields s) → f ∈ dump_fields s →
  ftype f = fields.Str ∨ ftype f = fields.Email →
  getattr obj (name f) = Some v → none_or is_str v →
  dump s obj = Ok out → out !! name f = Some v.
Proof.
  intros Hnd Hf Ht Hattr Hv Hout.
  destruct (foldl_dump_field_at obj ∅ _ out f Hnd Hf Hout) as (w & Hw & ->).
  rewrite (serialize_plain _ _ v) in Hw;
    [|by destruct Ht as [-> | ->]|done].
  rewrite (serialize_value_text _ _ Ht Hv) in Hw. by injection Hw as <-.
Qed.

Lemma foldl_dump_field_ext (obj obj' : Customer) (acc : result dict)
    (fs : list field) :
  (∀ f, f ∈ fs → serialize f obj = serialize f obj') →
  foldl (dump_field obj) acc fs = foldl (dump_field obj') acc fs.
Proof.
  revert acc. induction fs as [|f fs IH]; intros acc Hser; [done|].
  cbn [foldl]. unfold dump_field at 2 4.
  rewrite (Hser f) by by left.
  apply IH. intros g Hg. apply Hser. by right.
Qed.

Lemma getattr_set_password (obj : Customer) (p : pyval) (k : pystr) :
  k ≠ py "password" → getattr (set_password obj p) k = getattr obj k.
Proof.
  intros Hk. unfold getattr, set_password. cbn [list_to_map foldr uncurry].
  simpl.
  repeat match goal with
  | |- context [<[?j := _]> _ !! k] =>
      destruct (decide (k = j)) as [->|?];
      [by rewrite ?lookup_insert_eq, ?lookup_insert_ne by done
      |rewrite !(lookup_insert_ne _ j k) by done]
  end.
  done.
Qed.

(** X16: what [dump] returns does not depend on the record's password:
    two records that differ in that attribute only have the same output,
    or fail alike, whatever the schema excludes. *)
Theorem dump_ignores_password (exclude : list pystr) (obj : Customer) (p : pyval) :
  dump (CustomerSchema exclude) (set_password obj p)
  = dump (CustomerSchema exclude) obj.
Proof.
  unfold dump. apply foldl_dump_field_ext. intros f Hf.
  assert (name f ≠ py "password") as Hname.
  { intros Heq. apply (password_not_dumped exclude).
    rewrite <- Heq. by apply list_elem_of_fmap_2. }
  unfold serialize. rewrite (getattr_set_password _ _ _ Hname).
  done.
Qed.

(** X17: [dump] emits every field it has, set or not: the output of the
    full mode has exactly the eight keys of [dump_keys], an unset attribute
    appears as null, and a text attribute appears as the record holds it,
    neither stripped nor validated. *)
Theorem dump_emits_every_field (obj : Customer) (out : dict) :
  dump customer_schema obj = Ok out →
  (∀ k, is_Some (out !! k) ↔ k ∈ dump_keys)
  ∧ (∀ k, k ∈ dump_keys → k ≠ py "service_tickets" →
          getattr obj k = Some PNone → out !! k = Some PNone)
  ∧ (∀ k s, k ∈ [py "first_name"; py "last_name"; py "email"; py "phone";
                 py "address"] →
            getattr obj k = Some (PStr s) → out !! k = Some (PStr s)).
Proof.
  intros Hout.
  assert (∀ f, f ∈ dump_fields customer_schema →
               name f ≠ py "service_tickets" →
               ∃ v, getattr obj (name f) = Some v
                    ∧ ∃ w, serialize_value (ftype f) v = Ok w
                           ∧ out !! name f = Some w) as Hplain.
  { intros f Hf Hname.
    destruct (foldl_dump_field_at obj ∅ _ out f customer_dump_names_NoDup
                Hf Hout) as (w & Hw & ->).
    rewrite customer_dump_fields in Hf.
    repeat (apply elem_of_cons in Hf as [->|Hf]);
      [..|done|by apply elem_of_nil in Hf];
      (eexists; split; [reflexivity|]);
      (erewrite serialize_plain in Hw; [|done|reflexivity]);
      destruct (serialize_value _ _) as [w'|]; try done;
      injection Hw as <-; by eexists. }
  assert (∃ v, out !! py "service_tickets" = Some v) as Htickets.
  { destruct (foldl_dump_field_at obj ∅ _ out service_tickets_field
                customer_dump_names_NoDup) as (v & Hv & Hlook); [|done|].
    { rewrite customer_dump_fields. in_list. }
    change (name service_tickets_field) with (py "service_tickets") in Hlook.
    rewrite Hlook. rewrite serialize_service_tickets in Hv.
    destruct (traverse _ _); [|done]. injection Hv as <-. by eexists. }
  assert (∀ k, k ∈ dump_keys → k ≠ py "service_tickets" →
               ∃ f, f ∈ dump_fields customer_schema ∧ name f = k) as Hfield.
  { intros k Hk Hne. rewrite customer_dump_fields. unfold dump_keys in Hk.
    repeat (apply elem_of_cons in Hk as [->|Hk]);
      [exists first_name_field | exists last_name_field | exists email_field
       | exists phone_field | exists address_field | exists id_field
       | exists created_at_field | done | by apply elem_of_nil in Hk];
      (split; [in_list|done]). }
  split_and!.
  - intros k. split.
    + intros Hk. destruct (decide (k ∈ dump_keys)) as [|Hnot]; [done|].
      rewrite (foldl_dump_field_other _ _ _ _ k Hout) in Hk.
      * by destruct Hk.
      * by rewrite customer_dump_fields.
    + intros Hk.
      destruct (decide (k = py "service_tickets")) as [->|Hne].
      * destruct Htickets as [v ->]. by eexists.
      * destruct (Hfield k Hk Hne) as (f & Hf & <-).
        destruct (Hplain f Hf Hne) as (v & _ & w & _ & ->). by eexists.
  - intros k Hk Hne Hattr.
    destruct (Hfield k Hk Hne) as (f & Hf & <-).
    destruct (Hplain f Hf Hne) as (v & Hv & w & Hw & ->).
    rewrite Hattr in Hv. injection Hv as <-.
    rewrite serialize_value_None in Hw. by injection Hw as <-.
  - intros k s Hk Hattr.
    assert (∃ f, f ∈ dump_fields customer_schema ∧ name f = k
                 ∧ (ftype f = fields.Str ∨ ftype f = fields.Email))
      as (f & Hf & <- & Ht).
    { rewrite customer_dump_fields.
      repeat (apply elem_of_cons in Hk as [->|Hk]);
        [exists first_name_field | exists last_name_field | exists email_field
         | exists phone_field | exists address_field
         | by apply elem_of_nil in Hk];
        (split_and!; [in_list|done|auto]). }
    by apply (dump_text_at customer_schema obj out f (PStr s)
                customer_dump_names_NoDup).
Qed.

Lemma traverse_fmap_Ok {A B} (f g : A → result B) (k : B → B) (l : list A)
    (vs : list B) :
  (∀ a b, f a = Ok b → g a = Ok (k b)) →
  traverse f l = Ok vs → traverse g l = Ok (k <$> vs).
Proof.
  intros Hfg Hl. apply traverse_Ok. apply traverse_Ok in Hl.
  apply Forall2_fmap_r. eapply Forall2_impl; [exact Hl|]. apply Hfg.
Qed.

(** X18: the [many=True] instances dump a list record by record, in
    order: each output is what the single-object schema gives and holds no
    password, the simple list is the full list with [service_tickets]
    removed from every output, and a list of well-formed records always
    has an output. *)
Theorem dump_many_record_by_record (objs : list Customer) :
  (∀ outs, dump_many customers_schema objs = Ok outs →
     Forall2 (λ obj out, dump customer_schema obj = Ok out) objs outs
     ∧ Forall (λ out : dict, out !! py "password" = None) outs
     ∧ dump_many customers_simple_schema objs
       = Ok (delete (py "service_tickets") <$> outs)
     ∧ Forall2 (λ obj out, dump customer_simple_schema obj = Ok out) objs
               (delete (py "service_tickets") <$> outs))
  ∧ (Forall well_formed objs →
     ∃ outs, dump_many customers_schema objs = Ok outs).
Proof.
  split.
  - intros outs Houts.
    assert (Forall2 (λ obj out, dump customer_schema obj = Ok out) objs outs)
      as Hall by by apply traverse_Ok.
    assert (dump_many customers_simple_schema objs
            = Ok (delete (py "service_tickets") <$> outs)) as Hsimple.
    { apply (traverse_fmap_Ok (dump customers_schema)); [|done].
      apply dump_simple_of_full. }
    split_and!; [done| |done|by apply traverse_Ok].
    clear Houts Hsimple.
    induction Hall as [|obj out objs outs Hout _ IH]; constructor; [|done].
    by apply (dump_no_password [] obj).
  - intros Hwf. apply traverse_total.
    eapply Forall_impl; [exact Hwf|]. apply dump_well_formed.
Qed.

Lemma load_Ok_record random l h d c :
  h l = PDict d → (load customer_schema random l h).1 = Ok c →
  ∃ p, c = new_Customer (<[py "password" := p]> (strip_items d)).
Proof.
  intros Hl Hc.
  pose proof Hc as (d0 & ret & Hl0 & Hv & _)%load_Ok_inv.
  rewrite Hl in Hl0. injection Hl0 as <-.
  apply validated_customer_iff in Hv as [(_ & _ & _ & (raw & Hpw & _) & _) _].
  destruct (load_Ok_password _ _ _ _ _ _ Hl Hpw Hc) as (_ & _ & p & _ & ->).
  by exists p.
Qed.

(** X19: dumping the record that [load] returned gives the body back as
    the client sent it, stripped and without its password: the five text
    fields hold the stripped values ([phone] and [address] null when they
    were left out), [id] and [created_at] are null, there are no tickets,
    and there is no other key. *)
Theorem dump_after_load random l h d c :
  h l = PDict d → (load customer_schema random l h).1 = Ok c →
  ∃ out, dump customer_schema c = Ok out
    ∧ (∀ k, k ∈ [py "first_name"; py "last_name"; py "email"; py "phone";
                 py "address"] →
            out !! k = Some (default PNone (strip_items d !! k)))
    ∧ out !! py "id" = Some PNone
    ∧ out !! py "created_at" = Some PNone
    ∧ out !! py "service_tickets" = Some (PList [])
    ∧ (∀ k, k ∉ dump_keys → out !! k = None).
Proof.
  intros Hl Hc.
  destruct (dump_well_formed c) as [out Hout];
    [by eapply load_returns_well_formed|].
  pose proof (load_returns_well_formed _ _ _ _ Hc)
    as (_ & Hfirst & Hlast & Hemail & Hphone & Haddress & _).
  destruct (load_Ok_record _ _ _ _ _ Hl Hc) as [p ->].
  exists out. split; [done|].
  assert (∀ f, f ∈ dump_fields customer_schema →
            ∃ v, serialize f (new_Customer (<[py "password" := p]>
                                              (strip_items d))) = Ok v
                 ∧ out !! name f = v) as Hat.
  { intros f Hf.
    destruct (foldl_dump_field_at _ ∅ _ out f customer_dump_names_NoDup
                Hf Hout) as (v & Hv & ->).
    exists v. split; [done|]. by destruct v. }
  pose (c := new_Customer (<[py "password" := p]> (strip_items d))).
  unfold new_Customer in Hfirst, Hlast, Hemail, Hphone, Haddress.
  cbn [first_name last_name email phone address] in *.
  rewrite lookup_insert_ne in Hfirst, Hlast, Hemail, Hphone, Haddress
    by compute_done.
  split_and!.
  - intros k Hk.
    repeat (apply elem_of_cons in Hk as [->|Hk]);
      [..|by apply elem_of_nil in Hk].
    + apply (dump_text_at customer_schema c out first_name_field);
        [apply customer_dump_names_NoDup
        |rewrite customer_dump_fields; in_list|by left| |done|done].
      transitivity (Some (first_name c)); [done|]. f_equal.
      unfold c, new_Customer. cbn [first_name].
      by rewrite (lookup_insert_ne _ (py "password") (py "first_name"))
        by compute_done.
    + apply (dump_text_at customer_schema c out last_name_field);
        [apply customer_dump_names_NoDup
        |rewrite customer_dump_fields; in_list|by left| |done|done].
      transitivity (Some (last_name c)); [done|]. f_equal.
      unfold c, new_Customer. cbn [last_name].
      by rewrite (lookup_insert_ne _ (py "password") (py "last_name"))
        by compute_done.
    + apply (dump_text_at customer_schema c out email_field);
        [apply customer_dump_names_NoDup
        |rewrite customer_dump_fields; in_list|by right| |done|done].
      transitivity (Some (email c)); [done|]. f_equal.
      unfold c, new_Customer. cbn [email].
      by rewrite (lookup_insert_ne _ (py "password") (py "email"))
        by compute_done.
    + apply (dump_text_at customer_schema c out phone_field);
        [apply customer_dump_names_NoDup
        |rewrite customer_dump_fields; in_list|by left| |done|done].
      transitivity (Some (phone c)); [done|]. f_equal.
      unfold c, new_Customer. cbn [phone].
      by rewrite (lookup_insert_ne _ (py "password") (py "phone"))
        by compute_done.
    + apply (dump_text_at customer_schema c out address_field);
        [apply customer_dump_names_NoDup
        |rewrite customer_dump_fields; in_list|by left| |done|done].
      transitivity (Some (address c)); [done|]. f_equal.
      unfold c, new_Customer. cbn [address].
      by rewrite (lookup_insert_ne _ (py "password") (py "address"))
        by compute_done.
  - destruct (Hat id_field) as (v & Hv & Hlook);
      [rewrite customer_dump_fields; in_list|].
    change (name id_field) with (py "id") in Hlook. rewrite Hlook.
    by injection Hv as <-.
  - destruct (Hat created_at_field) as (v & Hv & Hlook);
      [rewrite customer_dump_fields; in_list|].
    change (name created_at_field) with (py "created_at") in Hlook.
    rewrite Hlook. by injection Hv as <-.
  - destruct (Hat service_tickets_field) as (v & Hv & Hlook);
      [rewrite customer_dump_fields; in_list|].
    change (name service_tickets_field) with (py "service_tickets") in Hlook.
    rewrite Hlook. by injection Hv as <-.
  - intros k Hk.
    rewrite (foldl_dump_field_other _ _ _ _ k Hout); [done|].
    by rewrite customer_dump_fields.
Qed.

(** X20: the output of [dump] is no body for [load]: sent back as it is,
    in either mode, it is refused, for the password it lacks and for the
    read-only [id] and [created_at] it holds. *)
Theorem load_refuses_dump_output (s : Schema) (random : list N)
    (obj : Customer) (out : dict) (l : loc) (h : heap) :
  s = customer_schema ∨ s = customer_simple_schema →
  dump s obj = Ok out → h l = PDict out →
  ∃ msgs, (load customer_schema random l h).1 = Raise (ValidationError msgs)
          ∧ msgs !! py "password" = Some [Required]
          ∧ msgs !! py "id" = Some [UnknownField]
          ∧ msgs !! py "created_at" = Some [UnknownField].
Proof.
  intros Hs Hout Hl.
  assert (out !! py "password" = None) as Hpw.
  { destruct Hs as [-> | ->]; by eapply dump_no_password. }
  assert (∀ f, f ∈ [id_field; created_at_field] →
               is_Some (out !! name f)) as Hheld.
  { intros f Hf.
    assert (NoDup (name <$> dump_fields s) ∧ f ∈ dump_fields s) as [Hnd Hin].
    { destruct Hs as [-> | ->].
      - split; [apply customer_dump_names_NoDup|].
        rewrite customer_dump_fields.
        repeat (apply elem_of_cons in Hf as [->|Hf]);
          [in_list..|by apply elem_of_nil in Hf].
      - split; [apply customer_simple_dump_names_NoDup|].
        rewrite customer_simple_dump_fields.
        repeat (apply elem_of_cons in Hf as [->|Hf]);
          [in_list..|by apply elem_of_nil in Hf]. }
    destruct (foldl_dump_field_at obj ∅ _ out f Hnd Hin Hout)
      as (w & Hw & ->).
    repeat (apply elem_of_cons in Hf as [->|Hf]);
      [..|by apply elem_of_nil in Hf];
      (erewrite serialize_plain in Hw; [|done|reflexivity]);
      destruct (serialize_value _ _); try done;
      injection Hw as <-; by eexists. }
  assert (password_field ∈ load_fields customer_schema) as Hin.
  { rewrite customer_load_fields. in_list. }
  destruct (validated_reports customer_schema (strip_items out)
              password_field [Required] customer_load_names_NoDup Hin)
    as (msgs & Hmsgs & Hat).
  { unfold field_errors. change (name password_field) with (py "password").
    by rewrite strip_items_password, Hpw. }
  exists msgs. split; [by apply (load_raises _ _ _ _ out)|].
  split; [done|].
  apply validated_Raise in Hmsgs as [_ Heq].
  assert (msgs = (_deserialize customer_schema (PDict (strip_items out))).2)
    as -> by congruence.
  split.
  - rewrite errors_at_unknown by (rewrite customer_load_fields; compute_done).
    rewrite strip_items_lookup.
    destruct (Hheld id_field) as [v Hv]; [in_list|].
    change (name id_field) with (py "id") in Hv. by rewrite Hv.
  - rewrite errors_at_unknown by (rewrite customer_load_fields; compute_done).
    rewrite strip_items_lookup.
    destruct (Hheld created_at_field) as [v Hv]; [in_list|].
    change (name created_at_field) with (py "created_at") in Hv.
    by rewrite Hv.
Qed.
End DumpExtras.

(** ** The further theorems at work on the examples *)

Lemma load_rejects_non_mapping_witness :
  process_input 1%positive (λ _, PNone) = (1%positive, λ _, PNone)
  ∧ @load sample_externals customer_schema [] 1%positive (λ _, PNone)
    = (Raise (ValidationError {[ py "_schema" := [InvalidInputType] ]}),
       λ _, PNone).
Proof.
  apply (@load_rejects_non_mapping sample_externals customer_schema []
           1%positive (λ _, PNone)).
  intros d. discriminate.
Defined.

Lemma load_again_changes_nothing_witness :
  (@load sample_externals customer_schema (replicate 16 9%N) 1%positive
     (@load sample_externals customer_schema (replicate 16 7%N) 1%positive
        (store_with 1%positive ann_body)).2).1
  = (@load sample_externals customer_schema (replicate 16 9%N) 1%positive
       (store_with 1%positive ann_body)).1.
Proof.
  apply (proj2 (@load_again_changes_nothing sample_externals customer_schema
                  (replicate 16 7%N) (replicate 16 9%N) 1%positive
                  (store_with 1%positive ann_body) ann_body eq_refl)).
Defined.

Lemma process_input_preserves_keys_witness :
  ∃ d', (process_input 1%positive (store_with 1%positive ann_body)).2
          1%positive = PDict d'
        ∧ dom d' = dom ann_body.
Proof.
  destruct (process_input_preserves_keys 1%positive
              (store_with 1%positive ann_body) ann_body eq_refl)
    as (d' & Hd' & Hdom & _).
  exists d'. exact (conj Hd' Hdom).
Defined.

Lemma load_rejects_blank_name_witness :
  ∃ msgs,
    (@load sample_externals customer_schema [] 1%positive
           (store_with 1%positive blank_name_body)).1
    = Raise (ValidationError msgs)
    ∧ msgs !! py "first_name" = Some [LengthBetween 1 50].
Proof.
  apply (@load_rejects_blank_name sample_externals [] 1%positive
           (store_with 1%positive blank_name_body) blank_name_body
           (py "first_name") (py "   ")).
  - reflexivity.
  - apply list_elem_of_here.
  - reflexivity.
  - repeat constructor.
Defined.

Lemma load_accepts_exactly_acceptable_witness :
  @acceptable sample_externals ann_body
  ∧ strip_items ann_body = strip_items ann_body.
Proof.
  apply (proj1 (@load_accepts_exactly_acceptable sample_externals []
                  1%positive (store_with 1%positive ann_body) ann_body
                  eq_refl)).
  vm_compute. reflexivity.
Defined.

Lemma load_raises_nothing_else_witness :
  (∃ msgs, ValueError = ValidationError msgs ∧ msgs ≠ ∅)
  ∨ (∃ d raw,
       store_with 1%positive long_password_body 1%positive = PDict d
       ∧ @acceptable sample_externals d
       ∧ d !! py "password" = Some (PStr raw)
       ∧ startswith raw (py "$2") = false
       ∧ ((ValueError = UnicodeEncodeError ∧ encode_utf8 raw = None)
          ∨ (ValueError = ValueError
             ∧ ∃ pw_bytes, encode_utf8 raw = Some pw_bytes
                           ∧ @bcrypt_refuses sample_externals pw_bytes
                             = true))).
Proof.
  apply (@load_raises_nothing_else sample_externals (replicate 16 7%N)
           1%positive (store_with 1%positive long_password_body) ValueError).
  vm_compute. reflexivity.
Defined.

Lemma load_stores_salted_hash_witness :
  ∃ pw_bytes hash,
    encode_utf8 (py "secret1") = Some pw_bytes
    ∧ password ann_loaded = PStr hash
    ∧ hash = gensalt (replicate 16 7%N)
             ++ encode_base64
                  (@bcrypt_core sample_externals pw_bytes
                     (gensalt (replicate 16 7%N)))
    ∧ ascii_only hash
    ∧ (length (replicate 16 7%N) = 16 →
       take 29 hash = gensalt (replicate 16 7%N))
    ∧ (length (replicate 16 7%N) = 16 →
       length (@bcrypt_core sample_externals pw_bytes
                 (gensalt (replicate 16 7%N))) = 23 →
       length hash = 60).
Proof.
  apply (@load_stores_salted_hash sample_externals (replicate 16 7%N)
           1%positive (store_with 1%positive ann_body) ann_body
           (py "secret1") ann_loaded).
  - reflexivity.
  - reflexivity.
  - reflexivity.
  - vm_compute. reflexivity.
Defined.

Lemma hash_password_changes_only_password_witness :
  email (set_password unvalidated_record
           (PStr (@hash_bytes sample_externals (py "123")
                    (gensalt (replicate 16 7%N)))))
  = email unvalidated_record
  ∧ service_tickets
      (set_password unvalidated_record
         (PStr (@hash_bytes sample_externals (py "123")
                  (gensalt (replicate 16 7%N)))))
    = service_tickets unvalidated_record.
Proof.
  assert (@hash_password sample_externals (replicate 16 7%N)
            (Instance unvalidated_record)
          = Ok (Instance
                  (set_password unvalidated_record
                     (PStr (@hash_bytes sample_externals (py "123")
                              (gensalt (replicate 16 7%N)))))))
    as Hhashed by (vm_compute; reflexivity).
  pose proof (@hash_password_changes_only_password sample_externals _ _ _
                Hhashed) as (_ & _ & _ & Hemail & _ & _ & _ & Htickets & _).
  exact (conj Hemail Htickets).
Defined.

Lemma load_keeps_hash_on_reload_witness :
  (@load sample_externals customer_schema (replicate 16 9%N) 2%positive
     (store_with 2%positive
        (<[py "password" := password ann_loaded]> ann_body))).1
  = Ok ann_loaded.
Proof.
  apply (@load_keeps_hash_on_reload sample_externals (replicate 16 7%N)
           (replicate 16 9%N) 1%positive (store_with 1%positive ann_body)
           ann_body ann_loaded).
  - reflexivity.
  - vm_compute. reflexivity.
  - reflexivity.
Defined.

Lemma load_errors_name_only_offences_witness :
  @offends sample_externals (strip_items number_email_body) (py "email")
    [InvalidEmail]
  ∨ (py "email" ∈ customer_keys
     ∧ number_email_body !! py "email" = Some PNone
     ∧ [InvalidEmail] = [Null])
  ∨ ((py "email" ∉ customer_keys)
     ∧ is_Some (number_email_body !! py "email")
     ∧ [InvalidEmail] = [UnknownField]).
Proof.
  apply (@load_errors_name_only_offences sample_externals [] 1%positive
           (store_with 1%positive number_email_body) number_email_body
           {[ py "email" := [InvalidEmail] ]}).
  - reflexivity.
  - vm_compute. reflexivity.
  - reflexivity.
Defined.

Lemma load_rejects_null_witness :
  ∃ msgs,
    (@load sample_externals customer_schema [] 1%positive
           (store_with 1%positive null_phone_body)).1
    = Raise (ValidationError msgs)
    ∧ msgs !! py "phone" = Some [Null].
Proof.
  apply (@load_rejects_null sample_externals [] 1%positive
           (store_with 1%positive null_phone_body) null_phone_body
           (py "phone")).
  - reflexivity.
  - unfold customer_keys. in_list.
  - reflexivity.
Defined.

Lemma load_rejects_unknown_keys_witness :
  ∃ msgs,
    (@load sample_externals customer_schema [] 1%positive
           (store_with 1%positive body_with_id)).1
    = Raise (ValidationError msgs)
    ∧ msgs !! py "id" = Some [UnknownField].
Proof.
  apply (proj1 (@load_rejects_unknown_keys sample_externals [] 1%positive
                  (store_with 1%positive body_with_id) body_with_id
                  (py "id") eq_refl)).
  - apply (bool_decide_unpack _). vm_compute. exact I.
  - exists (PInt 1). reflexivity.
Defined.

Lemma load_rejects_email_without_at_witness :
  ∃ msgs,
    (@load sample_externals customer_schema [] 1%positive
           (store_with 1%positive bad_body)).1 = Raise (ValidationError msgs)
    ∧ msgs !! py "email" = Some [InvalidEmail].
Proof.
  apply (proj2 (@load_rejects_email_without_at sample_externals [] 1%positive
                  (store_with 1%positive bad_body) bad_body (py "bad-email")
                  eq_refl eq_refl)).
  apply (bool_decide_unpack _). vm_compute. exact I.
Defined.

Lemma simple_schema_loads_no_password_witness :
  ∃ msgs,
    (@load sample_externals customer_simple_schema [] 1%positive
           (store_with 1%positive ann_body)).1
    = Raise (ValidationError msgs)
    ∧ msgs !! py "password" = Some [UnknownField].
Proof.
  apply (proj1 (@simple_schema_loads_no_password sample_externals []
                  1%positive (store_with 1%positive ann_body) ann_body
                  eq_refl) (PStr (py "secret1"))).
  reflexivity.
Defined.

Lemma login_reports_offending_fields_witness :
  @login_refuses sample_externals 1%positive
    (store_with 1%positive login_short_body) (py "password") [TooShort 6]
  ∧ @login_refuses sample_externals 1%positive
      (store_with 1%positive (<[py "email" := PInt 5]> login_ok_body))
      (py "email") [InvalidEmail].
Proof.
  split.
  - destruct (@login_reports_offending_fields sample_externals 1%positive
                (store_with 1%positive login_short_body) login_short_body
                eq_refl) as (_ & _ & _ & _ & _ & Hshort & _).
    apply (Hshort (py "abc")).
    + reflexivity.
    + vm_compute. lia.
  - destruct (@login_reports_offending_fields sample_externals 1%positive
                (store_with 1%positive (<[py "email" := PInt 5]> login_ok_body))
                (<[py "email" := PInt 5]> login_ok_body)
                eq_refl) as (_ & _ & Hnumber & _).
    apply (Hnumber (PInt 5)).
    + reflexivity.
    + discriminate.
    + reflexivity.
Defined.

Lemma dump_emits_every_field_witness :
  ann_dump !! py "phone" = Some PNone
  ∧ ann_dump !! py "address" = Some (PStr (py "1 Main St")).
Proof.
  assert (@dump sample_externals customer_schema ann_record = Ok ann_dump)
    as Hdump by (vm_compute; reflexivity).
  destruct (@dump_emits_every_field sample_externals ann_record ann_dump
              Hdump) as (_ & Hnull & Htext).
  split.
  - apply Hnull; [unfold dump_keys; in_list | discriminate | reflexivity].
  - apply Htext; [in_list | reflexivity].
Defined.

Lemma dump_after_load_witness :
  ∃ out, @dump sample_externals customer_schema ann_loaded = Ok out
    ∧ out !! py "first_name" = Some (PStr (py "Ann"))
    ∧ out !! py "phone" = Some PNone
    ∧ out !! py "id" = Some PNone.
Proof.
  destruct (@dump_after_load sample_externals (replicate 16 7%N) 1%positive
              (store_with 1%positive ann_body) ann_body ann_loaded)
    as (out & Hout & Htext & Hid & _).
  - reflexivity.
  - vm_compute. reflexivity.
  - exists out. split; [exact Hout|]. split_and!.
    + rewrite (Htext (py "first_name")) by in_list. reflexivity.
    + rewrite (Htext (py "phone")) by in_list. reflexivity.
    + exact Hid.
Defined.

Lemma load_refuses_dump_output_witness :
  ∃ msgs,
    (@load sample_externals customer_schema [] 1%positive
           (store_with 1%positive ann_dump)).1
    = Raise (ValidationError msgs)
    ∧ msgs !! py "password" = Some [Required]
    ∧ msgs !! py "id" = Some [UnknownField]
    ∧ msgs !! py "created_at" = Some [UnknownField].
Proof.
  apply (@load_refuses_dump_output sample_externals customer_schema []
           ann_record ann_dump 1%positive (store_with 1%positive ann_dump)).
  - by left.
  - vm_compute. reflexivity.
  - reflexivity.
Defined.
